(** * NdLife: Conway's Game of Life engines, embedded from the Python sources

    - [utilities/life_2d.py]        : [LifeSpace] (2D engine), [LifeViewer]
    - [utilities/life_nd.py]        : [LifeND] (rule derivation, [make_rules])
    - [utilities/vectorized_life.py]: [VectorLife] (stub)

    Boards are numpy arrays: mutable objects that live in a store and are
    reached through references.  The engines are modelled over that store
    with a small state-and-exception monad, so that "a fresh board is
    filled while the old one is only read" is a statement about the store
    and not an artefact of the embedding. *)

From Stdlib Require Import ZArith QArith Ascii String List Lia.
From stdpp Require Import base option list.

Local Open Scope Z_scope.

(** ** Python runtime: exceptions, tuples, the builtins the engines call *)

Inductive exn : Type :=
| IndexError
| ValueError
| TypeError
| AttributeError.

(** A computation that either raises or returns. *)
Definition res (A : Type) : Type := (exn + A)%type.

Definition raise {A : Type} (e : exn) : res A := inl e.
Definition ok {A : Type} (x : A) : res A := inr x.

Definition res_bind {A B : Type} (c : res A) (k : A -> res B) : res B :=
  match c with
  | inl e => inl e
  | inr x => k x
  end.

Declare Scope res_scope.
Delimit Scope res_scope with res.
Notation "x <- c ;; k" := (res_bind c (fun x => k))
  (at level 100, c at next level, right associativity) : res_scope.

(** An index such as [(i, j)] is a tuple of Python integers. *)
Definition tuple : Type := list Z.

(** [any(index)]: some element is truthy, i.e. different from zero. *)
Definition py_any (index : tuple) : bool :=
  existsb (fun n => negb (n =? 0)) index.

(** Comparing a Python [bool] with an integer compares it as 0 or 1. *)
Definition py_bool_lt (b : bool) (z : Z) : bool := Z.b2z b <? z.

(** [zip(xs, ys)] stops at the shorter argument. *)
Fixpoint py_zip {A B : Type} (xs : list A) (ys : list B) : list (A * B) :=
  match xs, ys with
  | x :: xs', y :: ys' => (x, y) :: py_zip xs' ys'
  | _, _ => []
  end.

(** [range(d)] for an integer [d]. *)
Definition py_range (d : Z) : list Z := seqZ 0 d.

(** [xs[i]] on a list or tuple, for a literal non-negative position. *)
Definition py_index {A : Type} (xs : list A) (i : nat) : res A :=
  match xs !! i with
  | Some x => ok x
  | None => raise IndexError
  end.

(** [xs.remove(x)]: drops the first element equal to [x], [ValueError] when
    there is none. *)
Fixpoint py_remove (x : tuple) (xs : list tuple) : res (list tuple) :=
  match xs with
  | [] => raise ValueError
  | y :: ys =>
      if decide (y = x) then ok ys
      else (ys' <- py_remove x ys ;; ok (y :: ys'))%res
  end.

(** [sum(values)] over cell values: alive counts 1, dead counts 0. *)
Definition py_sum (values : list bool) : Z :=
  fold_left (fun acc v => acc + Z.b2z v) values 0.

(** ** numpy: two-dimensional arrays of cell states *)

Record ndarray : Type := mk_ndarray {
  nd_shape : nat * nat;
  nd_rows : list (list bool)
}.

(** The rows agree with the recorded shape. *)
Definition nd_wf (a : ndarray) : Prop :=
  length (nd_rows a) = fst (nd_shape a) /\
  Forall (fun row => length row = snd (nd_shape a)) (nd_rows a).

(** [np.shape(a)] as the tuple that [zip] and the comparisons see. *)
Definition shape_tuple (dims : nat * nat) : tuple :=
  [Z.of_nat (fst dims); Z.of_nat (snd dims)].

(** One coordinate of a subscript along an axis of extent [d]: positions
    [0 .. d-1] are themselves, [-d .. -1] count from the end, anything else
    raises. *)
Definition norm_index (n : Z) (d : nat) : res nat :=
  if (0 <=? n) && (n <? Z.of_nat d) then ok (Z.to_nat n)
  else if (- Z.of_nat d <=? n) && (n <? 0) then ok (Z.to_nat (n + Z.of_nat d))
  else raise IndexError.

(** The cell in row [i], column [j], when there is one. *)
Definition nd_cell (a : ndarray) (i j : nat) : option bool :=
  nd_rows a !! i ≫= (.!! j).

(** [a[index]] for a subscript naming one cell.  The engines only ever
    subscript a board with two-coordinate tuples; a tuple of another length
    does not name a cell and is reported as [IndexError]. *)
Definition nd_getitem (a : ndarray) (index : tuple) : res bool :=
  match index with
  | [i; j] =>
      (i' <- norm_index i (fst (nd_shape a)) ;;
       j' <- norm_index j (snd (nd_shape a)) ;;
       match nd_cell a i' j' with
       | Some v => ok v
       | None => raise IndexError
       end)%res
  | _ => raise IndexError
  end.

(** [a[index] = v], the updated array. *)
Definition nd_setitem (a : ndarray) (index : tuple) (v : bool) : res ndarray :=
  match index with
  | [i; j] =>
      (i' <- norm_index i (fst (nd_shape a)) ;;
       j' <- norm_index j (snd (nd_shape a)) ;;
       ok (mk_ndarray (nd_shape a) (alter (<[j' := v]>) i' (nd_rows a))))%res
  | _ => raise IndexError
  end.

(** An array given cell by cell. *)
Definition nd_tabulate (dims : nat * nat) (f : nat -> nat -> bool) : ndarray :=
  mk_ndarray dims (map (fun i => map (f i) (seq 0 (snd dims))) (seq 0 (fst dims))).

(** ** The store of arrays *)

Definition loc : Type := nat.
Definition heap : Type := list ndarray.

(** Stateful computations over the store that may raise. *)
Definition M (A : Type) : Type := heap -> res (A * heap).

Definition ret {A : Type} (x : A) : M A := fun h => ok (x, h).

Definition bind {A B : Type} (c : M A) (k : A -> M B) : M B :=
  fun h =>
    match c h with
    | inl e => inl e
    | inr (x, h') => k x h'
    end.

Definition lift {A : Type} (c : res A) : M A :=
  fun h =>
    match c with
    | inl e => inl e
    | inr x => ok (x, h)
    end.

Declare Scope py_scope.
Delimit Scope py_scope with py.
Notation "x <- c ;; k" := (bind c (fun x => k))
  (at level 100, c at next level, right associativity) : py_scope.
Notation "c ;; k" := (bind c (fun _ => k))
  (at level 100, right associativity) : py_scope.

(** [for x in xs: body(x)] *)
Fixpoint for_ {A : Type} (xs : list A) (body : A -> M unit) : M unit :=
  match xs with
  | [] => ret tt
  | x :: xs' => (body x ;; for_ xs' body)%py
  end.

(** [[f(x) for x in xs]] *)
Fixpoint list_comp {A B : Type} (f : A -> M B) (xs : list A) : M (list B) :=
  match xs with
  | [] => ret []
  | x :: xs' => (y <- f x ;; ys <- list_comp f xs' ;; ret (y :: ys))%py
  end.

(** Dereference. *)
Definition load (l : loc) : M ndarray :=
  fun h =>
    match h !! l with
    | Some a => ok (a, h)
    | None => raise AttributeError
    end.

(** [np.shape(l)] *)
Definition np_shape (l : loc) : M (nat * nat) :=
  (a <- load l ;; ret (nd_shape a))%py.

(** [l[index]] *)
Definition np_getitem (l : loc) (index : tuple) : M bool :=
  (a <- load l ;; lift (nd_getitem a index))%py.

(** [l[index] = v]: the array behind [l] is updated in place. *)
Definition np_setitem (l : loc) (index : tuple) (v : bool) : M unit :=
  fun h =>
    match h !! l with
    | Some a =>
        match nd_setitem a index v with
        | inl e => inl e
        | inr a' => ok (tt, <[l := a']> h)
        end
    | None => raise AttributeError
    end.

(** [np.empty(shape=dims)]: a new array object whose contents are whatever
    the allocator left there, [junk]. *)
Definition np_empty (junk : nat -> nat -> bool) (dims : nat * nat) : M loc :=
  fun h => ok (length h, h ++ [nd_tabulate dims junk]).

(** ** [life_2d.py]: the two-dimensional engine *)

Module LifeSpace.

(** The fields set by [__init__]; [space] and the entries of [hist] are
    references to array objects. *)
Record t : Type := mk {
  space : loc;
  dims : nat * nat;
  wrap : bool;
  track : bool;
  ind_list : list tuple;
  hist : list loc
}.

(** [[(i, j) for i in range(dims[0]) for j in range(dims[1])]] *)
Definition make_ind_list (dims : nat * nat) : list tuple :=
  i ← py_range (Z.of_nat (fst dims));
  j ← py_range (Z.of_nat (snd dims));
  [[i; j]].

Definition __init__ (space : loc) (wrap track : bool) : M t :=
  (dims <- np_shape space ;;
   ret (mk space dims wrap track (make_ind_list dims) [space]))%py.

(** The loop of [check_valid_index] over [zip(index, self.dims)]. *)
Fixpoint exceeds_none (pairs : list (Z * Z)) : bool :=
  match pairs with
  | [] => true
  | (n, d) :: rest => if n >? d - 1 then false else exceeds_none rest
  end.

Definition check_valid_index (self : t) (index : tuple) : bool :=
  if py_bool_lt (py_any index) 0 then false
  else exceeds_none (py_zip index (shape_tuple (dims self))).

Definition wrap_switch (n d : Z) : Z :=
  if n <? 0 then d - 1
  else if n >? d - 1 then 0
  else n.

Definition wrap_index (self : t) (index : tuple) : tuple :=
  map (fun '(n, d) => wrap_switch n d) (py_zip index (shape_tuple (dims self))).

Definition get_neighbors (self : t) (index : tuple) : res (list tuple) :=
  (let ranges := map (fun n => [n - 1; n; n + 1]) index in
   r0 <- py_index ranges 0 ;;
   r1 <- py_index ranges 1 ;;
   let neighbor_ind := a ← r0; b ← r1; [[a; b]] in
   neighbor_ind <- py_remove index neighbor_ind ;;
   if wrap self then ok (map (wrap_index self) neighbor_ind)
   else ok (List.filter (check_valid_index self) neighbor_ind))%res.

Definition count_live_neighbors (self : t) (neighbors : list tuple) : M Z :=
  (values <- list_comp (np_getitem (space self)) neighbors ;;
   ret (py_sum values))%py.

Definition check_live (live : bool) (n_count : Z) : bool :=
  if live then
    if (n_count =? 2) || (n_count =? 3) then true else false
  else
    if n_count =? 3 then true else false.

Definition get_next_cell (self : t) (index : tuple) : M bool :=
  (neighbors <- lift (get_neighbors self index) ;;
   live_neighbors <- count_live_neighbors self neighbors ;;
   live <- np_getitem (space self) index ;;
   ret (check_live live live_neighbors))%py.

Section WithAllocator.

(** What [np.empty] finds in the memory it hands out. *)
Variable junk : nat -> nat -> bool.

Definition get_next_space (self : t) : M loc :=
  (new_space <- np_empty junk (dims self) ;;
   for_ (ind_list self)
     (fun index =>
        v <- get_next_cell self index ;;
        np_setitem new_space index v) ;;
   ret new_space)%py.

Definition step (self : t) : M (t * loc) :=
  (new_space <- get_next_space self ;;
   let hist' := if track self then hist self ++ [new_space] else hist self in
   ret (mk new_space (dims self) (wrap self) (track self)
          (ind_list self) hist', new_space))%py.

(** [n] consecutive calls of [step]. *)
Fixpoint steps (n : nat) (self : t) : M t :=
  match n with
  | O => ret self
  | S n' => (r <- step self ;; steps n' (fst r))%py
  end.

End WithAllocator.

End LifeSpace.

(** ** [life_2d.py]: the terminal viewer's text rendering *)

Module LifeViewer.

Definition newline : string := String (ascii_of_nat 10) EmptyString.

(** The inner loop: one character appended per cell. *)
Definition view_cell (repr : string) (j : bool) : string :=
  let repr := if j then (repr ++ "0")%string else repr in
  let repr := if negb j then (repr ++ " ")%string else repr in
  repr.

Definition view_row (repr : string) (i : list bool) : string :=
  (fold_left view_cell i repr ++ newline)%string.

(** [get_view(grid)]: iterating a board yields its rows. *)
Definition get_view (grid : list (list bool)) : string :=
  fold_left view_row grid EmptyString.

(** *** The draw loop

    The terminal is known through the calls made on it, in order, and
    through one fact about it: whether a text drawn at the origin fits the
    window ([addstr] raises [curses.error] when it does not). *)

Record t : Type := mk {
  life_space : LifeSpace.t;
  g : Z;
  framerate : Z
}.

Inductive call : Type :=
| CursSet (visibility : Z)
| Clear
| AddStr (y x : Z) (text : string)
| Refresh
| Sleep (seconds : Q).

(** What [_draw] can raise: a Python exception of the engine or of the
    loop itself, [curses.error], or the division by a zero frame rate. *)
Inductive draw_exn : Type :=
| Py (e : exn)
| CursesError
| ZeroDivisionError.

(** Where [_draw] leaves the engine, the terminal and the store, and the
    exception it ended with, if any. *)
Record outcome : Type := mk_outcome {
  engine : LifeSpace.t;
  calls : list call;
  store : heap;
  raised : option draw_exn
}.

Section Terminal.

Variable junk : nat -> nat -> bool.

(** Whether a text fits the window when drawn at the origin. *)
Variable fits : string -> bool.

(** [screen.addstr(0, 0, text)] *)
Definition addstr (text : string) (log : list call)
  : list call * option draw_exn :=
  (log ++ [AddStr 0 0 text], if fits text then None else Some CursesError).

(** [sleep(1 / self.framerate)] for an integer frame rate: the division
    raises on a zero rate, and [sleep] refuses a negative length.  The
    length slept is recorded as the exact quotient. *)
Definition sleep_frame (framerate : Z) (log : list call)
  : list call * option draw_exn :=
  if framerate =? 0 then (log, Some ZeroDivisionError)
  else if framerate <? 0 then (log, Some (Py ValueError))
  else (log ++ [Sleep (inject_Z 1 / inject_Z framerate)%Q], None).

(** The body of the loop: step, draw, refresh, sleep.  A [step] that
    raises has not yet replaced the engine's board, so the engine and the
    store are left as they were.  User interrupts are not part of the
    model. *)
Definition draw_frame (framerate : Z) (st : outcome) : outcome :=
  match LifeSpace.step junk (engine st) (store st) with
  | inl e => mk_outcome (engine st) (calls st) (store st) (Some (Py e))
  | inr (eng, grid, h) =>
      match h !! grid with
      | None => mk_outcome eng (calls st) h (Some (Py AttributeError))
      | Some a =>
          let '(log, err) := addstr (get_view (nd_rows a)) (calls st) in
          match err with
          | Some e => mk_outcome eng log h (Some e)
          | None =>
              let '(log, err) := sleep_frame framerate (log ++ [Refresh]) in
              mk_outcome eng log h err
          end
      end
  end.

(** [for _ in range(g)]: an exception leaves the loop. *)
Fixpoint draw_loop (framerate : Z) (iters : list Z) (st : outcome) : outcome :=
  match iters with
  | [] => st
  | _ :: rest =>
      let st := draw_frame framerate st in
      match raised st with
      | Some _ => st
      | None => draw_loop framerate rest st
      end
  end.

(** [_draw(screen, g)] *)
Definition _draw (self : t) (g : Z) (h : heap) : outcome :=
  let eng := life_space self in
  let log := [CursSet 0; Clear] in
  match h !! LifeSpace.space eng with
  | None => mk_outcome eng log h (Some (Py AttributeError))
  | Some a =>
      let '(log, err) := addstr (get_view (nd_rows a)) log in
      match err with
      | Some CursesError => mk_outcome eng log h (Some (Py ValueError))
      | Some e => mk_outcome eng log h (Some e)
      | None => draw_loop (framerate self) (py_range g) (mk_outcome eng log h None)
      end
  end.

End Terminal.

End LifeViewer.

(** ** [vectorized_life.py]: the vectorized stub *)

Module VectorLife.

Record t : Type := mk {
  board : loc;
  dims : nat * nat;
  wrap : bool;
  track : bool;
  tape : option (list loc)
}.

Definition __init__ (board : loc) (wrap track : bool) : M t :=
  (dims <- np_shape board ;;
   ret (mk board dims wrap track (if track then Some [board] else None)))%py.

(** [step] is [pass]. *)
Definition step (self : t) : M t := ret self.

(** [self.tape.append(self.board)]; appending to [None] raises. *)
Definition tape_append (self : t) : M t :=
  match tape self with
  | Some tp =>
      ret (mk (board self) (dims self) (wrap self) (track self)
             (Some (tp ++ [board self])))
  | None => lift (raise AttributeError)
  end.

Definition run_body (self : t) : M t :=
  (self <- step self ;;
   if track self then tape_append self else ret self)%py.

(** The loop over [range(g)]. *)
Fixpoint run_loop (iters : list Z) (self : t) : M t :=
  match iters with
  | [] => ret self
  | _ :: rest => (self <- run_body self ;; run_loop rest self)%py
  end.

Definition run (self : t) (g : Z) : M t := run_loop (py_range g) self.

End VectorLife.

(** ** [life_nd.py]: rule derivation of the n-dimensional engine *)

Module LifeND.

(** What [self.dims] can hold when [make_rules] runs: [__init__] stores the
    shape tuple [np.shape(space)]; the class body declares the number of
    axes, [dims = 2]. *)
Inductive dims_value : Type :=
| Shape (shape : tuple)
| Axes (d : Z).

(** Python numbers.  Floats are kept as exact rationals: every quotient
    [i / 8] and the three proportionality constants are dyadic, so for the
    eight-neighbour table the comparisons below are those of the floats. *)
Inductive number : Type :=
| Int (z : Z)
| Float (q : Q).

(** [math.pow(3, y)]: a float, and only real numbers are accepted. *)
Definition math_pow3 (y : dims_value) : res number :=
  match y with
  | Axes d => ok (Float (Qpower (inject_Z 3) d))
  | Shape _ => raise TypeError
  end.

(** [x - 1] *)
Definition number_pred (x : number) : number :=
  match x with
  | Int z => Int (z - 1)
  | Float q => Float (q - 1)%Q
  end.

Definition number_value (x : number) : Q :=
  match x with
  | Int z => inject_Z z
  | Float q => q
  end.

(** [range(x)]: only an integer can be interpreted as a bound. *)
Definition range_number (x : number) : res (list Z) :=
  match x with
  | Int z => ok (py_range z)
  | Float _ => raise TypeError
  end.

Definition range_dims (x : dims_value) : res (list Z) :=
  match x with
  | Axes d => ok (py_range d)
  | Shape _ => raise TypeError
  end.

(** The four thresholds are attributes that exist only once assigned. *)
Record rules : Type := mk_rules {
  low_rule : option Z;
  high_rule : option Z;
  res_low : option Z;
  res_high : option Z
}.

(** The locals and attributes the scan loop of [make_rules] updates. *)
Record scan : Type := mk_scan {
  found_rules : rules;
  low_found : bool;
  high_found : bool;
  res_high_found : bool
}.

Definition neighbors_l : Q := (1 # 4)%Q.
Definition neighbors_h : Q := (3 # 8)%Q.
Definition res_h : Q := (1 # 2)%Q.

(** [ps[i]] for [i] drawn from a [range]. *)
Definition ps_at (ps : list Q) (i : Z) : res Q := py_index ps (Z.to_nat i).

Definition scan_low (ps : list Q) (i : Z) (s : scan) : res scan :=
  if negb (low_found s) then
    (p <- ps_at ps i ;;
     if Qle_bool neighbors_l p then
       let r := found_rules s in
       ok (mk_scan (mk_rules (Some i) (high_rule r) (res_low r) (res_high r))
             true (high_found s) (res_high_found s))
     else ok s)%res
  else ok s.

Definition scan_high (ps : list Q) (i : Z) (s : scan) : res scan :=
  if negb (high_found s) then
    (p <- ps_at ps i ;;
     let r := found_rules s in
     if Qeq_bool p neighbors_h then
       ok (mk_scan (mk_rules (low_rule r) (Some i) (Some i) (res_high r))
             (low_found s) true (res_high_found s))
     else if negb (Qle_bool p neighbors_h) then
       ok (mk_scan (mk_rules (low_rule r) (Some (i - 1)) (Some (i - 1)) (res_high r))
             (low_found s) true (res_high_found s))
     else ok s)%res
  else ok s.

Definition scan_res_high (ps : list Q) (i : Z) (s : scan) : res scan :=
  if negb (res_high_found s) then
    (p <- ps_at ps i ;;
     if Qle_bool res_h p then
       let r := found_rules s in
       ok (mk_scan (mk_rules (low_rule r) (high_rule r) (res_low r) (Some (i - 1)))
             (low_found s) (high_found s) true)
     else ok s)%res
  else ok s.

(** The [for i in ...] loop with its [break]. *)
Fixpoint scan_loop (ps : list Q) (iters : list Z) (s : scan) : res scan :=
  match iters with
  | [] => ok s
  | i :: rest =>
      (s <- scan_low ps i s ;;
       s <- scan_high ps i s ;;
       s <- scan_res_high ps i s ;;
       if low_found s && high_found s && res_high_found s then ok s
       else scan_loop ps rest s)%res
  end.

Definition no_rules : rules := mk_rules None None None None.

(** The proportion table [tuple(i / num_neighbors for i in counts)]. *)
Definition proportions (num_neighbors : number) (counts : list Z) : list Q :=
  map (fun i => (inject_Z i / number_value num_neighbors)%Q) counts.

Definition make_rules (dims : dims_value) : res rules :=
  (p <- math_pow3 dims ;;
   let num_neighbors := number_pred p in
   counts <- range_number num_neighbors ;;
   let ps := proportions num_neighbors counts in
   iters <- range_dims dims ;;
   s <- scan_loop ps iters (mk_scan no_rules false false false) ;;
   ok (found_rules s))%res.

(** [__init__] up to the call of [make_rules]: [self.dims = np.shape(space)]
    and then the derivation; the thresholds it returns are the engine's. *)
Definition init_rules (space : loc) : M rules :=
  (dims <- np_shape space ;;
   lift (make_rules (Shape (shape_tuple dims))))%py.

(** Reading an attribute that was never assigned raises. *)
Definition attr (a : option Z) : res Z :=
  match a with
  | Some v => ok v
  | None => raise AttributeError
  end.

(** [check_live(live, n_count)] against the derived thresholds; [and] reads
    its second operand only when the first holds. *)
Definition check_live (r : rules) (live : bool) (n_count : Z) : res bool :=
  if live then
    (low <- attr (low_rule r) ;;
     if n_count >=? low then
       (high <- attr (high_rule r) ;;
        if n_count <=? high then ok true else ok false)
     else ok false)%res
  else
    (low <- attr (res_low r) ;;
     if n_count >=? low then
       (high <- attr (res_high r) ;;
        if n_count <=? high then ok true else ok false)
     else ok false)%res.

(** *** Index validity and wrapping, for a shape of any length

    [self.dims] is the shape tuple here; the three methods are written as
    in the 2D engine. *)

Fixpoint exceeds_none (pairs : list (Z * Z)) : bool :=
  match pairs with
  | [] => true
  | (n, d) :: rest => if n >? d - 1 then false else exceeds_none rest
  end.

Definition check_valid_index (dims : tuple) (index : tuple) : bool :=
  if py_bool_lt (py_any index) 0 then false
  else exceeds_none (py_zip index dims).

Definition wrap_switch (n d : Z) : Z :=
  if n <? 0 then d - 1
  else if n >? d - 1 then 0
  else n.

Definition wrap_index (dims : tuple) (index : tuple) : tuple :=
  map (fun '(n, d) => wrap_switch n d) (py_zip index dims).

End LifeND.

(** ** Vocabulary for the statements about the 2D engine *)

Module LifeSpaceRef.
Import LifeSpace.

(** The eight cells around [(i, j)], in the order [get_neighbors] lists its
    candidates once the cell itself is removed. *)
Definition moore (i j : Z) : list tuple :=
  [[i - 1; j - 1]; [i - 1; j]; [i - 1; j + 1];
   [i; j - 1]; [i; j + 1];
   [i + 1; j - 1]; [i + 1; j]; [i + 1; j + 1]].

(** Every coordinate of the index lies in [0, extent - 1] for its axis. *)
Definition in_bounds (dims : nat * nat) (index : tuple) : Prop :=
  Forall (fun '(n, d) => 0 <= n <= d - 1) (py_zip index (shape_tuple dims)).

(** The values of an array at a list of subscripts. *)
Fixpoint read_all (a : ndarray) (indices : list tuple) : res (list bool) :=
  match indices with
  | [] => ok []
  | index :: rest =>
      (v <- nd_getitem a index ;; vs <- read_all a rest ;; ok (v :: vs))%res
  end.

(** The number of live cells an array holds at a list of subscripts. *)
Definition live_count (a : ndarray) (indices : list tuple) : res Z :=
  (vs <- read_all a indices ;; ok (py_sum vs))%res.

(** The next state of one cell, read off the array value [a] of the
    engine's board: [get_next_cell] without the store. *)
Definition next_cell (self : t) (a : ndarray) (index : tuple) : res bool :=
  (neighbors <- get_neighbors self index ;;
   live_neighbors <- live_count a neighbors ;;
   live <- nd_getitem a index ;;
   ok (check_live live live_neighbors))%res.

(** The subscript of the cell in row [i], column [j]. *)
Definition cell_index (p : nat * nat) : tuple :=
  [Z.of_nat (fst p); Z.of_nat (snd p)].

(** The cells of a board, row by row. *)
Definition cells (dims : nat * nat) : list (nat * nat) :=
  i ← seq 0 (fst dims); j ← seq 0 (snd dims); [(i, j)].

Definition next_state (self : t) (a : ndarray) (i j : nat) : bool :=
  match next_cell self a (cell_index (i, j)) with
  | inr v => v
  | inl _ => false
  end.

(** The board whose every cell is the next state computed from [a]. *)
Definition next_board (self : t) (a : ndarray) : ndarray :=
  nd_tabulate (dims self) (next_state self a).

(** A subscript that numpy resolves on a board of the given shape. *)
Definition resolvable (dims : nat * nat) (index : tuple) : Prop :=
  exists x y, index = [x; y] /\
    - Z.of_nat (fst dims) <= x < Z.of_nat (fst dims) /\
    - Z.of_nat (snd dims) <= y < Z.of_nat (snd dims).

(** The engine owns a well-formed board whose shape and index list are the
    ones [__init__] recorded. *)
Definition consistent (self : t) (h : heap) : Prop :=
  exists a, h !! space self = Some a /\ nd_wf a /\ nd_shape a = dims self /\
            ind_list self = make_ind_list (dims self).

(** A 3x3 board whose only live cell is the bottom-left one, and a bounded
    engine on it, stored as the first object. *)
Definition corner_board : ndarray :=
  mk_ndarray (3%nat, 3%nat)
    [[false; false; false];
     [false; false; false];
     [true;  false; false]].

Definition corner_engine : t :=
  mk 0%nat (3%nat, 3%nat) false true (make_ind_list (3%nat, 3%nat)) [0%nat].

(** Memory that [np.empty] hands out with every cell set. *)
Definition stale : nat -> nat -> bool := fun _ _ => true.

(** The 4x4 board whose four centre cells are alive. *)
Definition block : ndarray :=
  mk_ndarray (4%nat, 4%nat)
    [[false; false; false; false];
     [false; true;  true;  false];
     [false; true;  true;  false];
     [false; false; false; false]].

(** The board of the given shape with every cell dead. *)
Definition dead_board (dims : nat * nat) : ndarray :=
  nd_tabulate dims (fun _ _ => false).

(** The board [k] generations after [a]. *)
Definition generation (self : t) (a : ndarray) (k : nat) : ndarray :=
  Nat.iter k (next_board self) a.

(** The engine after [n] steps taken from a store of [size] objects: each
    step allocates the next free reference. *)
Definition stepped (self : t) (size n : nat) : t :=
  mk (List.last (seq size n) (space self)) (dims self) (wrap self)
     (track self) (ind_list self)
     (if track self then hist self ++ seq size n else hist self).


End LifeSpaceRef.

(** ** Vocabulary for the statements about the viewer *)

Module LifeViewerRef.

(** The character a cell is drawn as. *)
Definition cell_char (alive : bool) : ascii :=
  if alive then "0"%char else " "%char.

(** A row: one character per cell, then a newline. *)
Definition render_row (row : list bool) : string :=
  (string_of_list_ascii (map cell_char row) ++ LifeViewer.newline)%string.

(** The rows one after the other. *)
Fixpoint render (grid : list (list bool)) : string :=
  match grid with
  | [] => EmptyString
  | row :: rest => (render_row row ++ render rest)%string
  end.

(** Reading a rendered text back: a newline closes the row collected so
    far, ['0'] is an alive cell and any other character a dead one. *)
Fixpoint parse_rows (text : string) (row : list bool) : list (list bool) :=
  match text with
  | EmptyString => []
  | String c rest =>
      if Ascii.eqb c (ascii_of_nat 10) then rev row :: parse_rows rest []
      else parse_rows rest (Ascii.eqb c "0"%char :: row)
  end.

Definition parse_view (text : string) : list (list bool) := parse_rows text [].

(** The calls one pass of the draw loop makes for a board. *)
Definition frame_calls (framerate : Z) (a : ndarray) : list LifeViewer.call :=
  [LifeViewer.AddStr 0 0 (LifeViewer.get_view (nd_rows a));
   LifeViewer.Refresh;
   LifeViewer.Sleep (inject_Z 1 / inject_Z framerate)%Q].


(** What is on the terminal before the loop starts. *)
Definition first_draw (a : ndarray) : list LifeViewer.call :=
  [LifeViewer.CursSet 0; LifeViewer.Clear;
   LifeViewer.AddStr 0 0 (LifeViewer.get_view (nd_rows a))].

End LifeViewerRef.

(** ** Vocabulary for the statements about rule derivation *)

Module LifeNDRef.
Import LifeND.

(** The table [ps] for the eight possible neighbours of a 2D cell:
    [i / 8] for [i] from 0 to 7. *)
Definition ps8 : list Q := proportions (Float (inject_Z 8)) (py_range 8).

(** The scan state on entry to the loop. *)
Definition fresh_scan : scan := mk_scan no_rules false false false.

(** The survival band ends where the birth band starts, and each flag of
    the scan says whether its threshold has been assigned. *)
Definition coherent (s : scan) : Prop :=
  high_rule (found_rules s) = res_low (found_rules s) /\
  (low_found s = true <-> is_Some (low_rule (found_rules s))) /\
  (high_found s = true <-> is_Some (high_rule (found_rules s))) /\
  (res_high_found s = true <-> is_Some (res_high (found_rules s))).

End LifeNDRef.

(** * Properties *)

(** ** The two monads *)

Section MonadFacts.
Context {A B : Type}.

Lemma res_bind_ok (x : A) (k : A -> res B) : res_bind (ok x) k = k x.
Proof. reflexivity. Qed.

Lemma res_bind_raise (e : exn) (k : A -> res B) :
  res_bind (raise e) k = raise e.
Proof. reflexivity. Qed.

Lemma bind_ok (c : M A) (k : A -> M B) (h h' : heap) (x : A) :
  c h = ok (x, h') -> bind c k h = k x h'.
Proof. unfold bind. by intros ->. Qed.

Lemma bind_lift_ok (x : A) (k : A -> M B) (h : heap) :
  bind (lift (ok x)) k h = k x h.
Proof. reflexivity. Qed.

Lemma bind_ret (x : A) (k : A -> M B) (h : heap) :
  bind (ret x) k h = k x h.
Proof. reflexivity. Qed.

End MonadFacts.

(** ** Arrays and subscripts *)

Section ArrayFacts.

Lemma norm_index_nonneg (n : Z) (d : nat) :
  0 <= n < Z.of_nat d -> norm_index n d = ok (Z.to_nat n).
Proof.
  intros H. unfold norm_index.
  destruct (Z.leb_spec 0 n); destruct (Z.ltb_spec n (Z.of_nat d)); simpl; auto; lia.
Qed.

Lemma norm_index_neg (n : Z) (d : nat) :
  - Z.of_nat d <= n < 0 -> norm_index n d = ok (Z.to_nat (n + Z.of_nat d)).
Proof.
  intros H. unfold norm_index.
  destruct (Z.leb_spec 0 n); simpl; [lia|].
  destruct (Z.leb_spec (- Z.of_nat d) n); destruct (Z.ltb_spec n 0); simpl; auto; lia.
Qed.

Lemma norm_index_of_nat (i d : nat) :
  (i < d)%nat -> norm_index (Z.of_nat i) d = ok i.
Proof.
  intros H. rewrite norm_index_nonneg by lia. by rewrite Nat2Z.id.
Qed.

Lemma norm_index_bound (n : Z) (d k : nat) :
  norm_index n d = ok k -> (k < d)%nat.
Proof.
  unfold norm_index.
  destruct (Z.leb_spec 0 n); destruct (Z.ltb_spec n (Z.of_nat d)); simpl;
    try (intros [= <-]; lia);
    destruct (Z.leb_spec (- Z.of_nat d) n); destruct (Z.ltb_spec n 0); simpl;
    try discriminate; intros [= <-]; lia.
Qed.

Lemma nd_cell_is_Some (a : ndarray) (i j : nat) :
  nd_wf a -> (i < fst (nd_shape a))%nat -> (j < snd (nd_shape a))%nat ->
  is_Some (nd_cell a i j).
Proof.
  intros [Hr Hc] Hi Hj. unfold nd_cell.
  destruct (lookup_lt_is_Some_2 (nd_rows a) i) as [row Hrow]; [lia|].
  rewrite Hrow. simpl.
  apply lookup_lt_is_Some_2.
  rewrite Forall_forall in Hc.
  rewrite (Hc row); [done|]. eapply list_elem_of_lookup_2; eauto.
Qed.

Lemma nd_getitem_of_nat (a : ndarray) (i j : nat) :
  (i < fst (nd_shape a))%nat -> (j < snd (nd_shape a))%nat ->
  nd_getitem a [Z.of_nat i; Z.of_nat j] =
    match nd_cell a i j with Some v => ok v | None => raise IndexError end.
Proof.
  intros Hi Hj. unfold nd_getitem.
  rewrite !norm_index_of_nat by done. done.
Qed.

(** A subscript within [-d .. d-1] on each axis always finds a cell. *)
Lemma nd_getitem_ok (a : ndarray) (i j : Z) :
  nd_wf a ->
  - Z.of_nat (fst (nd_shape a)) <= i < Z.of_nat (fst (nd_shape a)) ->
  - Z.of_nat (snd (nd_shape a)) <= j < Z.of_nat (snd (nd_shape a)) ->
  exists v, nd_getitem a [i; j] = ok v.
Proof.
  intros Hwf Hi Hj. unfold nd_getitem.
  assert (exists i', norm_index i (fst (nd_shape a)) = ok i') as [i' Ei].
  { destruct (Z_lt_le_dec i 0);
      [rewrite norm_index_neg by lia | rewrite norm_index_nonneg by lia]; eauto. }
  assert (exists j', norm_index j (snd (nd_shape a)) = ok j') as [j' Ej].
  { destruct (Z_lt_le_dec j 0);
      [rewrite norm_index_neg by lia | rewrite norm_index_nonneg by lia]; eauto. }
  rewrite Ei, Ej. simpl.
  destruct (nd_cell_is_Some a i' j') as [v Hv]; eauto using norm_index_bound.
  rewrite Hv. eauto.
Qed.

(** Negative positions name the cells counted from the far edge. *)
Lemma nd_getitem_negative_row (a : ndarray) (i j : Z) :
  - Z.of_nat (fst (nd_shape a)) <= i < 0 ->
  nd_getitem a [i; j] = nd_getitem a [i + Z.of_nat (fst (nd_shape a)); j].
Proof.
  intros Hi. unfold nd_getitem.
  rewrite (norm_index_neg i) by lia.
  rewrite (norm_index_nonneg (i + _)) by lia. done.
Qed.

Lemma nd_getitem_negative_col (a : ndarray) (i j : Z) :
  - Z.of_nat (snd (nd_shape a)) <= j < 0 ->
  nd_getitem a [i; j] = nd_getitem a [i; j + Z.of_nat (snd (nd_shape a))].
Proof.
  intros Hj. unfold nd_getitem.
  rewrite (norm_index_neg j) by lia.
  rewrite (norm_index_nonneg (j + _)) by lia. done.
Qed.

Lemma nd_tabulate_wf (dims : nat * nat) (f : nat -> nat -> bool) :
  nd_wf (nd_tabulate dims f).
Proof.
  split; simpl.
  - by rewrite length_map, length_seq.
  - apply Forall_forall. intros row Hrow.
    change (map ?g ?l) with (g <$> l) in Hrow.
    apply list_elem_of_fmap in Hrow as (i & -> & _).
    by rewrite length_map, length_seq.
Qed.

Lemma nd_cell_tabulate (dims : nat * nat) (f : nat -> nat -> bool) (i j : nat) :
  (i < fst dims)%nat -> (j < snd dims)%nat ->
  nd_cell (nd_tabulate dims f) i j = Some (f i j).
Proof.
  intros Hi Hj. unfold nd_cell, nd_tabulate. simpl.
  change (map ?g ?l) with (g <$> l).
  rewrite list_lookup_fmap, lookup_seq_lt by done. simpl.
  change (map ?g ?l) with (g <$> l).
  by rewrite list_lookup_fmap, lookup_seq_lt by done.
Qed.

(** Two well-formed arrays of one shape with the same cells are equal. *)
Lemma nd_ext (a b : ndarray) :
  nd_wf a -> nd_wf b -> nd_shape a = nd_shape b ->
  (forall i j, (i < fst (nd_shape a))%nat -> (j < snd (nd_shape a))%nat ->
               nd_cell a i j = nd_cell b i j) ->
  a = b.
Proof.
  destruct a as [sa ra], b as [sb rb]. unfold nd_wf, nd_cell. simpl.
  intros [Hra Hca] [Hrb Hcb] <- Hcells. f_equal.
  apply list_eq_same_length with (fst sa); [done..|].
  intros i rowa rowb Hi Ha Hb.
  rewrite Forall_forall in Hca, Hcb.
  assert (length rowa = snd sa) as La
    by (apply Hca; eapply list_elem_of_lookup_2; eauto).
  assert (length rowb = snd sa) as Lb
    by (apply Hcb; eapply list_elem_of_lookup_2; eauto).
  apply list_eq_same_length with (snd sa); [done..|].
  intros j x y Hj Hx Hy.
  specialize (Hcells i j Hi Hj). rewrite Ha, Hb in Hcells. simpl in Hcells.
  congruence.
Qed.

End ArrayFacts.

(** ** Arrays: in-place update of one cell *)

Section SetItem.

Lemma nd_setitem_of_nat (a : ndarray) (i j : nat) (v : bool) :
  (i < fst (nd_shape a))%nat -> (j < snd (nd_shape a))%nat ->
  nd_setitem a [Z.of_nat i; Z.of_nat j] v =
    ok (mk_ndarray (nd_shape a) (alter (<[j := v]>) i (nd_rows a))).
Proof.
  intros Hi Hj. unfold nd_setitem. by rewrite !norm_index_of_nat by done.
Qed.

Lemma nd_alter_wf (a : ndarray) (i j : nat) (v : bool) :
  nd_wf a -> nd_wf (mk_ndarray (nd_shape a) (alter (<[j := v]>) i (nd_rows a))).
Proof.
  intros [Hr Hc]. split; simpl.
  - by rewrite length_alter.
  - apply Forall_alter; [done|]. intros row _ Hrow. by rewrite length_insert.
Qed.

Lemma nd_cell_alter (a : ndarray) (i j i' j' : nat) (v : bool) :
  nd_wf a -> (i < fst (nd_shape a))%nat -> (j < snd (nd_shape a))%nat ->
  nd_cell (mk_ndarray (nd_shape a) (alter (<[j := v]>) i (nd_rows a))) i' j' =
    if decide (i' = i /\ j' = j) then Some v else nd_cell a i' j'.
Proof.
  intros [Hr Hc] Hi Hj. unfold nd_cell. simpl.
  destruct (decide (i' = i)) as [->|Hne].
  - rewrite list_lookup_alter_eq.
    destruct (lookup_lt_is_Some_2 (nd_rows a) i) as [row Hrow]; [lia|].
    rewrite Hrow. simpl.
    assert (length row = snd (nd_shape a)) as Hlen.
    { rewrite Forall_forall in Hc. apply Hc.
      eapply list_elem_of_lookup_2; eauto. }
    destruct (decide (j' = j)) as [->|Hnej].
    + rewrite decide_True by done.
      apply list_lookup_insert_eq. lia.
    + rewrite decide_False by tauto.
      by apply list_lookup_insert_ne.
  - rewrite decide_False by tauto.
    by rewrite list_lookup_alter_ne.
Qed.

End SetItem.

(** ** The 2D engine: indices and neighbours *)

Section NeighborFacts.
Import LifeSpace LifeSpaceRef.

(** A Python [bool] is never below zero: the first test of
    [check_valid_index] is false for every tuple. *)
Lemma py_bool_lt_zero (b : bool) : py_bool_lt b 0 = false.
Proof. by destruct b. Qed.

Lemma exceeds_none_spec (pairs : list (Z * Z)) :
  exceeds_none pairs = true <-> Forall (fun '(n, d) => n <= d - 1) pairs.
Proof.
  induction pairs as [|[n d] rest IH]; simpl.
  - split; auto.
  - destruct (Z.gtb_spec n (d - 1)).
    + split; [discriminate|]. intros H'. inversion H'. lia.
    + rewrite IH. split.
      * intros ?. constructor; [lia|done].
      * intros H'. by inversion H'.
Qed.

Lemma check_valid_index_spec (self : t) (index : tuple) :
  check_valid_index self index = true <->
  Forall (fun '(n, d) => n <= d - 1) (py_zip index (shape_tuple (dims self))).
Proof.
  unfold check_valid_index. rewrite py_bool_lt_zero. apply exceeds_none_spec.
Qed.

Lemma check_valid_index_pair (self : t) (i j : Z) :
  check_valid_index self [i; j] = true <->
  i <= Z.of_nat (fst (dims self)) - 1 /\ j <= Z.of_nat (snd (dims self)) - 1.
Proof.
  rewrite check_valid_index_spec. simpl. split.
  - intros H. inversion H as [|? ? ? H']; subst. inversion H'; subst. done.
  - intros [? ?]. repeat constructor; done.
Qed.

(** Removing the cell from its nine candidates leaves the eight around it. *)
Lemma py_remove_candidates (i j : Z) :
  py_remove [i; j]
    (a ← [i - 1; i; i + 1]; b ← [j - 1; j; j + 1]; [[a; b]]) = ok (moore i j).
Proof.
  simpl.
  repeat (rewrite decide_False by (intros [=]; lia)).
  rewrite decide_True by done. done.
Qed.

Lemma get_neighbors_pair (self : t) (i j : Z) :
  get_neighbors self [i; j] =
    ok (if wrap self then map (wrap_index self) (moore i j)
        else List.filter (check_valid_index self) (moore i j)).
Proof.
  unfold get_neighbors, py_index. simpl.
  repeat (rewrite decide_False by (intros [=]; lia)).
  rewrite decide_True by done. simpl. by destruct (wrap self).
Qed.

Lemma wrap_switch_range (n d : Z) :
  1 <= d -> 0 <= wrap_switch n d <= d - 1.
Proof.
  intros Hd. unfold wrap_switch.
  destruct (Z.ltb_spec n 0); [lia|].
  destruct (Z.gtb_spec n (d - 1)); lia.
Qed.

Lemma wrap_index_pair (self : t) (i j : Z) :
  wrap_index self [i; j] =
    [wrap_switch i (Z.of_nat (fst (dims self)));
     wrap_switch j (Z.of_nat (snd (dims self)))].
Proof. reflexivity. Qed.

End NeighborFacts.

(** ** The 2D engine: reading the board *)

Section ReadFacts.
Import LifeSpace LifeSpaceRef.

Lemma moore_resolvable_wrap (self : t) (i j : Z) :
  0 <= i < Z.of_nat (fst (dims self)) ->
  0 <= j < Z.of_nat (snd (dims self)) ->
  Forall (resolvable (dims self)) (map (wrap_index self) (moore i j)).
Proof.
  intros Hi Hj. unfold moore. simpl map. rewrite !wrap_index_pair.
  repeat constructor; eexists _, _; (split; [reflexivity|]);
    split;
    match goal with
    | |- _ <= wrap_switch ?n ?d < _ =>
        pose proof (wrap_switch_range n d ltac:(lia)); lia
    end.
Qed.

Lemma moore_resolvable_bounded (self : t) (i j : Z) :
  0 <= i < Z.of_nat (fst (dims self)) ->
  0 <= j < Z.of_nat (snd (dims self)) ->
  Forall (resolvable (dims self))
    (List.filter (check_valid_index self) (moore i j)).
Proof.
  intros Hi Hj. apply Forall_forall. intros nb Hnb.
  apply list_elem_of_In, filter_In in Hnb as [Hin Hvalid].
  unfold moore in Hin. simpl in Hin.
  repeat (destruct Hin as [<-|Hin]); try done;
    apply check_valid_index_pair in Hvalid;
    eexists _, _; (split; [reflexivity|]); lia.
Qed.

(** Every neighbour index the engine produces for a cell of the board can
    be read from the board. *)
Lemma get_neighbors_resolvable (self : t) (i j : Z) :
  0 <= i < Z.of_nat (fst (dims self)) ->
  0 <= j < Z.of_nat (snd (dims self)) ->
  exists nbrs, get_neighbors self [i; j] = ok nbrs /\
               Forall (resolvable (dims self)) nbrs.
Proof.
  intros Hi Hj. rewrite get_neighbors_pair. eexists; split; [reflexivity|].
  destruct (wrap self);
    auto using moore_resolvable_wrap, moore_resolvable_bounded.
Qed.

Lemma read_all_ok (a : ndarray) (indices : list tuple) :
  nd_wf a -> Forall (resolvable (nd_shape a)) indices ->
  exists vs, read_all a indices = ok vs /\ length vs = length indices.
Proof.
  intros Hwf. induction 1 as [|index rest (x & y & -> & Hx & Hy) _ IH].
  - by exists [].
  - destruct (nd_getitem_ok a x y Hwf Hx Hy) as [v Hv].
    destruct IH as (vs & Hvs & Hlen).
    exists (v :: vs). cbn [read_all]. rewrite Hv, Hvs. simpl. by rewrite Hlen.
Qed.

Lemma py_sum_from (values : list bool) (acc : Z) :
  fold_left (fun acc v => acc + Z.b2z v) values acc = acc + py_sum values.
Proof.
  unfold py_sum. revert acc.
  induction values as [|v vs IH] using rev_ind; intros acc; simpl; [lia|].
  rewrite !fold_left_app. simpl. rewrite IH. lia.
Qed.

Lemma py_sum_cons (v : bool) (values : list bool) :
  py_sum (v :: values) = Z.b2z v + py_sum values.
Proof. unfold py_sum at 1. simpl. by rewrite py_sum_from. Qed.

Lemma py_sum_bounds (values : list bool) :
  0 <= py_sum values <= Z.of_nat (length values).
Proof.
  induction values as [|v vs IH]; [done|].
  rewrite py_sum_cons. destruct v; simpl length; simpl Z.b2z; lia.
Qed.

(** The next state of every cell of the board is defined. *)
Lemma next_cell_ok (self : t) (a : ndarray) (i j : nat) :
  nd_wf a -> nd_shape a = dims self ->
  (i < fst (dims self))%nat -> (j < snd (dims self))%nat ->
  exists nbrs n live,
    get_neighbors self [Z.of_nat i; Z.of_nat j] = ok nbrs /\
    live_count a nbrs = ok n /\
    nd_getitem a [Z.of_nat i; Z.of_nat j] = ok live /\
    next_cell self a [Z.of_nat i; Z.of_nat j] = ok (check_live live n).
Proof.
  intros Hwf Hshape Hi Hj.
  destruct (get_neighbors_resolvable self (Z.of_nat i) (Z.of_nat j))
    as (nbrs & Hn & Hres); [lia..|].
  rewrite <- Hshape in Hres.
  destruct (read_all_ok a nbrs Hwf Hres) as (vs & Hvs & _).
  destruct (nd_getitem_ok a (Z.of_nat i) (Z.of_nat j) Hwf) as [live Hlive];
    [rewrite Hshape; lia..|].
  exists nbrs, (py_sum vs), live. unfold next_cell, live_count.
  rewrite Hn, res_bind_ok, Hvs, !res_bind_ok, Hlive. repeat split; reflexivity.
Qed.

End ReadFacts.

(** ** The 2D engine: running against the store *)

Section RunFacts.
Import LifeSpace LifeSpaceRef.

Lemma np_getitem_run (h : heap) (l : loc) (a : ndarray) (index : tuple) :
  h !! l = Some a -> np_getitem l index h = lift (nd_getitem a index) h.
Proof. intros Hl. unfold np_getitem, bind, load. by rewrite Hl. Qed.

Lemma list_comp_getitem_run (h : heap) (l : loc) (a : ndarray)
      (indices : list tuple) :
  h !! l = Some a ->
  list_comp (np_getitem l) indices h = lift (read_all a indices) h.
Proof.
  intros Hl. induction indices as [|index rest IH]; [done|].
  cbn [list_comp read_all]. unfold bind at 1.
  rewrite (np_getitem_run h l a) by done. unfold lift at 1.
  destruct (nd_getitem a index) as [e|v]; [done|].
  rewrite res_bind_ok. unfold ok at 1. cbv beta iota.
  unfold bind at 1. rewrite IH. unfold lift at 1.
  destruct (read_all a rest) as [e|vs]; done.
Qed.

Lemma count_live_neighbors_run (self : t) (h : heap) (a : ndarray)
      (neighbors : list tuple) :
  h !! space self = Some a ->
  count_live_neighbors self neighbors h = lift (live_count a neighbors) h.
Proof.
  intros Hl. unfold count_live_neighbors, bind, live_count.
  rewrite (list_comp_getitem_run h _ a) by done. unfold lift.
  destruct (read_all a neighbors); done.
Qed.

(** [get_next_cell] only reads, and only the engine's board. *)
Lemma get_next_cell_run (self : t) (h : heap) (a : ndarray) (index : tuple) :
  h !! space self = Some a ->
  get_next_cell self index h = lift (next_cell self a index) h.
Proof.
  intros Hl. unfold get_next_cell, next_cell, bind at 1, lift at 1.
  destruct (get_neighbors self index) as [e|nbrs]; [done|].
  rewrite res_bind_ok. unfold ok at 1. cbv beta iota.
  unfold bind at 1. rewrite (count_live_neighbors_run self h a) by done.
  unfold lift at 1. destruct (live_count a nbrs) as [e|n]; [done|].
  rewrite res_bind_ok. unfold ok at 1. cbv beta iota.
  unfold bind at 1. rewrite (np_getitem_run h _ a) by done.
  unfold lift at 1. destruct (nd_getitem a index); done.
Qed.

Lemma lookup_fresh (h : heap) (b : ndarray) : (h ++ [b]) !! length h = Some b.
Proof. rewrite lookup_app_r by lia. by rewrite Nat.sub_diag. Qed.

Lemma insert_fresh (h : heap) (b b' : ndarray) :
  <[length h := b']> (h ++ [b]) = h ++ [b'].
Proof. rewrite insert_app_r_alt by lia. by rewrite Nat.sub_diag. Qed.

Lemma lookup_old (h : heap) (b a : ndarray) (l : loc) :
  h !! l = Some a -> (h ++ [b]) !! l = Some a.
Proof. intros Hl. by apply lookup_app_l_Some. Qed.

End RunFacts.

(** ** The 2D engine: the loop of [get_next_space] *)

Section LoopFacts.
Import LifeSpace LifeSpaceRef.

Lemma make_ind_list_cells (dims : nat * nat) :
  make_ind_list dims = map cell_index (cells dims).
Proof.
  unfold make_ind_list, cells, py_range, seqZ. rewrite !Nat2Z.id.
  generalize (seq 0 (snd dims)) as js. intros js.
  induction (seq 0 (fst dims)) as [|i rest IH]; [done|].
  cbn [fmap list_fmap mbind list_bind]. rewrite map_app. f_equal; [|exact IH].
  rewrite Z.add_0_r. clear.
  induction js as [|j js IH]; [done|].
  cbn [fmap list_fmap mbind list_bind app map]. rewrite Z.add_0_r.
  f_equal. exact IH.
Qed.

Lemma elem_of_cells (dims : nat * nat) (i j : nat) :
  (i, j) ∈ cells dims <-> (i < fst dims)%nat /\ (j < snd dims)%nat.
Proof.
  unfold cells. rewrite list_elem_of_bind. split.
  - intros (i' & Hin & Hi'). apply list_elem_of_bind in Hin as (j' & Hin & Hj').
    apply list_elem_of_singleton in Hin as [= -> ->].
    apply elem_of_seq in Hi', Hj'. lia.
  - intros [Hi Hj]. exists i. split; [|apply elem_of_seq; lia].
    apply list_elem_of_bind. exists j. split; [|apply elem_of_seq; lia].
    by apply list_elem_of_singleton.
Qed.

Variable self : t.
Variable a : ndarray.
Variable h : heap.
Hypothesis Hboard : h !! space self = Some a.
Hypothesis Hwf : nd_wf a.
Hypothesis Hshape : nd_shape a = dims self.

(** One iteration writes the next state of its cell into the new array and
    touches nothing else. *)
Lemma loop_body_run (b : ndarray) (i j : nat) :
  nd_shape b = dims self ->
  (i < fst (dims self))%nat -> (j < snd (dims self))%nat ->
  bind (get_next_cell self (cell_index (i, j)))
       (fun v => np_setitem (length h) (cell_index (i, j)) v) (h ++ [b]) =
    ok (tt, h ++ [mk_ndarray (nd_shape b)
                    (alter (<[j := next_state self a i j]>) i (nd_rows b))]).
Proof.
  intros Hb Hi Hj. unfold bind.
  rewrite (get_next_cell_run self _ a) by (by apply lookup_old).
  unfold next_state.
  destruct (next_cell_ok self a i j Hwf Hshape Hi Hj)
    as (nbrs & n & live & _ & _ & _ & Hnext).
  unfold cell_index. simpl fst. simpl snd. rewrite Hnext. simpl.
  unfold np_setitem. rewrite lookup_fresh.
  rewrite nd_setitem_of_nat by (by rewrite Hb). simpl.
  by rewrite insert_fresh.
Qed.

Lemma loop_run (todo : list (nat * nat)) (b : ndarray) :
  nd_wf b -> nd_shape b = dims self ->
  Forall (fun p => p ∈ cells (dims self)) todo ->
  exists b',
    for_ (map cell_index todo)
      (fun index => bind (get_next_cell self index)
                      (fun v => np_setitem (length h) index v)) (h ++ [b]) =
      ok (tt, h ++ [b']) /\
    nd_wf b' /\ nd_shape b' = dims self /\
    forall i j, (i < fst (dims self))%nat -> (j < snd (dims self))%nat ->
      nd_cell b' i j =
        if decide ((i, j) ∈ todo) then Some (next_state self a i j)
        else nd_cell b i j.
Proof.
  intros Hbwf Hb Htodo. revert b Hbwf Hb.
  induction Htodo as [|[i0 j0] todo Hin _ IH]; intros b Hbwf Hb.
  - exists b. do 3 (split; [done|]).
    intros i j _ _. rewrite decide_False; [done|]. apply not_elem_of_nil.
  - apply elem_of_cells in Hin as [Hi0 Hj0]. simpl in Hi0, Hj0.
    set (b1 := mk_ndarray (nd_shape b)
                 (alter (<[j0 := next_state self a i0 j0]>) i0 (nd_rows b))).
    destruct (IH b1) as (b' & Hrun & Hwf' & Hshape' & Hcells).
    { by apply nd_alter_wf. }
    { done. }
    exists b'. split; [|do 2 (split; [done|])].
    + cbn [map for_]. unfold bind at 1.
      rewrite (loop_body_run b i0 j0) by done. exact Hrun.
    + intros i j Hi Hj. rewrite (Hcells i j Hi Hj).
      unfold b1. rewrite nd_cell_alter by (done || by rewrite Hb).
      destruct (decide ((i, j) ∈ todo)) as [Hmem|Hnmem].
      * rewrite decide_True; [done|]. by apply list_elem_of_further.
      * destruct (decide (i = i0 /\ j = j0)) as [[-> ->]|Hne].
        -- rewrite decide_True; [done|]. apply list_elem_of_here.
        -- rewrite decide_False; [done|].
           intros [[= -> ->]|?]%elem_of_cons; tauto.
Qed.

(** [get_next_space] allocates one array, fills it with the next state of
    every cell as read from the engine's board, and changes no other
    object of the store. *)
Lemma get_next_space_run (junk : nat -> nat -> bool) :
  ind_list self = make_ind_list (dims self) ->
  get_next_space junk self h = ok (length h, h ++ [next_board self a]).
Proof.
  intros Hind. unfold get_next_space. unfold bind at 1, np_empty at 1.
  unfold ok at 1. cbv beta iota.
  rewrite Hind, make_ind_list_cells.
  destruct (loop_run (cells (dims self)) (nd_tabulate (dims self) junk))
    as (b' & Hrun & Hwf' & Hshape' & Hcells).
  { apply nd_tabulate_wf. }
  { done. }
  { by apply Forall_forall. }
  unfold bind at 1. rewrite Hrun. unfold ok at 1. cbv beta iota.
  unfold ret. do 4 f_equal.
  apply nd_ext; [done|apply nd_tabulate_wf|by rewrite Hshape'|].
  rewrite Hshape'. intros i j Hi Hj.
  rewrite (Hcells i j Hi Hj).
  rewrite decide_True by (by apply elem_of_cells).
  unfold next_board. by rewrite nd_cell_tabulate.
Qed.

End LoopFacts.

(** ** The 2D engine: index validity and neighbourhoods *)

Section IndexClaims.
Import LifeSpace LifeSpaceRef.

(** C1 (index validity).  The claim reads [check_valid_index] as "every
    coordinate lies in [0, extent - 1]".  The code accepts an index as
    soon as no coordinate exceeds its extent: on a 2x2 board the index
    [(-1, 0)] is accepted although it is not in bounds. *)
Theorem check_valid_index_accepts_negative :
  let self := mk 0%nat (2%nat, 2%nat) false false (make_ind_list (2%nat, 2%nat)) [0%nat] in
  check_valid_index self [-1; 0] = true /\ ~ in_bounds (dims self) [-1; 0].
Proof.
  split; [reflexivity|].
  unfold in_bounds. simpl. intros H. inversion H; subst. lia.
Qed.

Lemma in_bounds_pair (dims : nat * nat) (i j : Z) :
  in_bounds dims [i; j] <->
  0 <= i <= Z.of_nat (fst dims) - 1 /\ 0 <= j <= Z.of_nat (snd dims) - 1.
Proof.
  unfold in_bounds. simpl. split.
  - intros H. inversion H as [|? ? ? H']; subst. inversion H'; subst. done.
  - intros [? ?]. constructor; [done|]. constructor; [done|]. constructor.
Qed.

Lemma read_all_Forall2 (a : ndarray) (indices : list tuple) (vs : list bool) :
  read_all a indices = ok vs ->
  Forall2 (fun index v => nd_getitem a index = ok v) indices vs.
Proof.
  revert vs. induction indices as [|index rest IH]; intros vs; cbn [read_all].
  - intros [= <-]. constructor.
  - destruct (nd_getitem a index) as [e|v] eqn:Hv; [done|].
    rewrite res_bind_ok.
    destruct (read_all a rest) as [e|vs'] eqn:Hvs; [done|].
    rewrite res_bind_ok. intros [= <-]. constructor; auto.
Qed.

(** C2 (bounded boards wrap along their low edges).  With wrap disabled
    the negative-coordinate test never fires, so every index whose
    coordinates are at most [extent - 1] is accepted; for a cell in row 0
    (column 0) the neighbours therefore include an index with coordinate
    [-1], which is out of bounds, and the live-neighbour count sums the
    board's values at the neighbour indices, where the value at
    coordinate [-1] is the cell on the opposite edge. *)
Theorem bounded_board_wraps_low_edges
    (self : t) (h : heap) (a : ndarray) (i j : Z) :
  wrap self = false ->
  h !! space self = Some a -> nd_wf a -> nd_shape a = dims self ->
  0 <= i < Z.of_nat (fst (dims self)) ->
  0 <= j < Z.of_nat (snd (dims self)) ->
  (forall index, py_bool_lt (py_any index) 0 = false) /\
  (forall index,
      Forall (fun '(n, d) => n <= d - 1)
             (py_zip index (shape_tuple (dims self))) ->
      check_valid_index self index = true) /\
  exists nbrs vs,
    get_neighbors self [i; j] = ok nbrs /\
    count_live_neighbors self nbrs h = ok (py_sum vs, h) /\
    Forall2 (fun index v => nd_getitem a index = ok v) nbrs vs /\
    (i = 0 ->
       [-1; j] ∈ nbrs /\ ~ in_bounds (dims self) [-1; j] /\
       nd_getitem a [-1; j] =
         nd_getitem a [Z.of_nat (fst (dims self)) - 1; j]) /\
    (j = 0 ->
       [i; -1] ∈ nbrs /\ ~ in_bounds (dims self) [i; -1] /\
       nd_getitem a [i; -1] =
         nd_getitem a [i; Z.of_nat (snd (dims self)) - 1]).
Proof.
  intros Hwrap Hboard Hwf Hshape Hi Hj.
  split; [intros; apply py_bool_lt_zero|].
  split; [intros index; apply check_valid_index_spec|].
  destruct (get_neighbors_resolvable self i j Hi Hj) as (nbrs & Hn & Hres).
  rewrite <- Hshape in Hres.
  destruct (read_all_ok a nbrs Hwf Hres) as (vs & Hvs & _).
  exists nbrs, vs. split; [done|]. split; [|split; [by apply read_all_Forall2|]].
  { rewrite (count_live_neighbors_run self h a) by done.
    unfold live_count. by rewrite Hvs. }
  rewrite get_neighbors_pair, Hwrap in Hn.
  assert (nbrs = List.filter (check_valid_index self) (moore i j)) as ->
    by (unfold ok in Hn; congruence).
  clear Hn Hres Hvs.
  split; intros ->.
  - split; [|split].
    + apply list_elem_of_In, filter_In. split; [simpl; tauto|].
      apply check_valid_index_pair. lia.
    + rewrite in_bounds_pair. lia.
    + rewrite nd_getitem_negative_row by (rewrite Hshape; lia).
      rewrite Hshape. do 2 f_equal. lia.
  - split; [|split].
    + apply list_elem_of_In, filter_In. split; [simpl; tauto|].
      apply check_valid_index_pair. lia.
    + rewrite in_bounds_pair. lia.
    + rewrite nd_getitem_negative_col by (rewrite Hshape; lia).
      rewrite Hshape. do 3 f_equal. lia.
Qed.

End IndexClaims.

Section IndexWitnesses.
Import LifeSpace LifeSpaceRef.

(** On the 3x3 corner board the bounded engine counts the live cell of
    the bottom row as a neighbour of the top-left cell. *)
Lemma bounded_board_wraps_low_edges_witness :
  [-1; 0] ∈ moore 0 0 /\
  count_live_neighbors corner_engine
    (List.filter (check_valid_index corner_engine) (moore 0 0))
    [corner_board] = ok (1, [corner_board]) /\
  exists nbrs vs,
    get_neighbors corner_engine [0; 0] = ok nbrs /\
    count_live_neighbors corner_engine nbrs [corner_board] =
      ok (py_sum vs, [corner_board]) /\
    Forall2 (fun index v => nd_getitem corner_board index = ok v) nbrs vs /\
    (0 = 0 ->
       [-1; 0] ∈ nbrs /\ ~ in_bounds (dims corner_engine) [-1; 0] /\
       nd_getitem corner_board [-1; 0] =
         nd_getitem corner_board
           [Z.of_nat (fst (dims corner_engine)) - 1; 0]) /\
    (0 = 0 ->
       [0; -1] ∈ nbrs /\ ~ in_bounds (dims corner_engine) [0; -1] /\
       nd_getitem corner_board [0; -1] =
         nd_getitem corner_board
           [0; Z.of_nat (snd (dims corner_engine)) - 1]).
Proof.
  split; [apply list_elem_of_In; simpl; tauto|].
  split; [reflexivity|].
  apply (bounded_board_wraps_low_edges corner_engine [corner_board]
           corner_board 0 0).
  - reflexivity.
  - reflexivity.
  - split; [reflexivity|]. repeat constructor.
  - reflexivity.
  - simpl; lia.
  - simpl; lia.
Defined.

End IndexWitnesses.

(** ** The 2D engine: generations *)

Section StepClaims.
Import LifeSpace LifeSpaceRef.

Variable junk : nat -> nat -> bool.

Lemma init_run (h : heap) (l : loc) (a : ndarray) (wrp trk : bool) :
  h !! l = Some a ->
  __init__ l wrp trk h =
    ok (mk l (nd_shape a) wrp trk (make_ind_list (nd_shape a)) [l], h).
Proof. intros Hl. unfold __init__, np_shape, bind, load. by rewrite Hl. Qed.

Lemma init_consistent (h : heap) (l : loc) (a : ndarray) (wrp trk : bool) :
  h !! l = Some a -> nd_wf a ->
  consistent (mk l (nd_shape a) wrp trk (make_ind_list (nd_shape a)) [l]) h.
Proof. intros Hl Hwf. exists a. simpl. done. Qed.

Lemma next_board_wf (self : t) (a : ndarray) : nd_wf (next_board self a).
Proof. apply nd_tabulate_wf. Qed.

(** C7 (a generation is computed from the previous one only).
    [get_next_space] returns a reference to an array that did not exist
    before the call; every object that was in the store, the engine's
    board among them, is still there unchanged; the new array has the
    board's shape and each of its cells is [check_live] of the old value
    of that cell and of the live-neighbour count taken on the old
    board. *)
Theorem get_next_space_reads_previous_generation
    (self : t) (h : heap) (old : ndarray) :
  h !! space self = Some old -> nd_wf old -> nd_shape old = dims self ->
  ind_list self = make_ind_list (dims self) ->
  exists (new_space : loc) (new : ndarray) (h' : heap),
    get_next_space junk self h = ok (new_space, h') /\
    h !! new_space = None /\
    (forall l a, h !! l = Some a -> h' !! l = Some a) /\
    h' !! space self = Some old /\
    h' !! new_space = Some new /\
    nd_wf new /\ nd_shape new = nd_shape old /\
    forall i j : nat,
      (i < fst (dims self))%nat -> (j < snd (dims self))%nat ->
      exists nbrs n live,
        get_neighbors self [Z.of_nat i; Z.of_nat j] = ok nbrs /\
        live_count old nbrs = ok n /\
        nd_getitem old [Z.of_nat i; Z.of_nat j] = ok live /\
        nd_getitem new [Z.of_nat i; Z.of_nat j] = ok (check_live live n).
Proof.
  intros Hboard Hwf Hshape Hind.
  exists (length h), (next_board self old), (h ++ [next_board self old]).
  split; [by apply get_next_space_run|].
  split; [by apply lookup_ge_None_2|].
  split; [intros l a Hl; by apply lookup_old|].
  split; [by apply lookup_old|].
  split; [apply lookup_fresh|].
  split; [apply next_board_wf|].
  split; [by rewrite Hshape|].
  intros i j Hi Hj.
  destruct (next_cell_ok self old i j Hwf Hshape Hi Hj)
    as (nbrs & n & live & Hn & Hcount & Hlive & Hnext).
  exists nbrs, n, live. do 3 (split; [done|]).
  rewrite nd_getitem_of_nat by done.
  unfold next_board. rewrite nd_cell_tabulate by done.
  unfold next_state, cell_index. simpl fst. simpl snd. by rewrite Hnext.
Qed.

Lemma step_run (self : t) (h : heap) (a : ndarray) :
  h !! space self = Some a -> nd_wf a -> nd_shape a = dims self ->
  ind_list self = make_ind_list (dims self) ->
  step junk self h =
    ok (mk (length h) (dims self) (wrap self) (track self) (ind_list self)
           (if track self then hist self ++ [length h] else hist self),
        length h, h ++ [next_board self a]).
Proof.
  intros Hboard Hwf Hshape Hind. unfold step, bind.
  by rewrite (get_next_space_run self a h Hboard Hwf Hshape junk Hind).
Qed.

Lemma last_cons_default {A : Type} (x d : A) (xs : list A) :
  List.last (x :: xs) d = List.last xs x.
Proof.
  revert x d. induction xs as [|y ys IH]; intros x d; [done|].
  change (List.last (x :: y :: ys) d) with (List.last (y :: ys) d).
  by rewrite !IH.
Qed.

(** Any number of steps runs to completion; the engine then owns the
    array allocated last, and the history has gained the references
    allocated on the way, in order. *)
Lemma steps_run (n : nat) (self : t) (h : heap) :
  consistent self h ->
  exists self' h',
    steps junk n self h = ok (self', h') /\
    consistent self' h' /\
    length h' = (length h + n)%nat /\
    (forall l a, h !! l = Some a -> h' !! l = Some a) /\
    wrap self' = wrap self /\ track self' = track self /\
    dims self' = dims self /\
    space self' = List.last (seq (length h) n) (space self) /\
    hist self' =
      if track self then hist self ++ seq (length h) n else hist self.
Proof.
  revert self h. induction n as [|n IH]; intros self h Hcons.
  - exists self, h. simpl. rewrite Nat.add_0_r, app_nil_r.
    repeat split; try done. by destruct (track self).
  - destruct Hcons as (a & Hboard & Hwf & Hshape & Hind).
    set (self1 := mk (length h) (dims self) (wrap self) (track self)
                    (ind_list self)
                    (if track self then hist self ++ [length h]
                     else hist self)).
    destruct (IH self1 (h ++ [next_board self a]))
      as (self' & h' & Hrun & Hcons' & Hlen & Hold & Hw & Ht & Hd & Hs & Hh).
    { exists (next_board self a). simpl.
      split; [apply lookup_fresh|]. split; [apply next_board_wf|]. done. }
    exists self', h'. cbn [steps]. unfold bind at 1.
    rewrite (step_run self h a) by done. simpl fst.
    split; [exact Hrun|]. split; [done|].
    rewrite length_app in Hlen. simpl in Hlen.
    split; [lia|].
    split; [intros l b Hl; by apply Hold, lookup_old|].
    do 3 (split; [done|]).
    rewrite length_app in Hs, Hh. simpl length in Hs, Hh.
    replace (length h + 1)%nat with (S (length h)) in Hs, Hh by lia.
    split.
    + rewrite Hs. simpl space. cbn [seq]. by rewrite last_cons_default.
    + rewrite Hh. simpl. destruct (track self); [|done].
      by rewrite <- app_assoc.
Qed.

End StepClaims.

Section HistoryClaims.
Import LifeSpace LifeSpaceRef.

Variable junk : nat -> nat -> bool.

Lemma last_cons_Some {A : Type} (x : A) (xs : list A) :
  last (x :: xs) = Some (List.last xs x).
Proof.
  revert x. induction xs as [|y ys IH]; intros x; [done|].
  change (last (x :: y :: ys)) with (last (y :: ys)).
  by rewrite IH, last_cons_default.
Qed.

(** C6 (history tracking).  An engine constructed with tracking on a
    stored board runs any number [N] of steps to completion; its history
    then holds [N + 1] references, the first is the initial board, the
    last is the engine's current board, and that board is in the
    store. *)
Theorem history_has_one_board_per_step
    (h : heap) (l : loc) (a : ndarray) (wrp : bool) (N : nat) :
  h !! l = Some a -> nd_wf a ->
  exists self h',
    bind (__init__ l wrp true) (steps junk N) h = ok (self, h') /\
    length (hist self) = (N + 1)%nat /\
    head (hist self) = Some l /\
    last (hist self) = Some (space self) /\
    is_Some (h' !! space self).
Proof.
  intros Hl Hwf.
  destruct (steps_run junk N _ h (init_consistent h l a wrp true Hl Hwf))
    as (self & h' & Hrun & Hcons & _ & _ & _ & _ & _ & Hspace & Hhist).
  exists self, h'. unfold bind. rewrite (init_run h l a) by done.
  split; [exact Hrun|].
  simpl in Hspace, Hhist. rewrite Hhist, Hspace.
  split; [simpl; rewrite length_seq; lia|].
  split; [done|].
  split; [apply last_cons_Some|].
  destruct Hcons as (b & Hb & _). rewrite <- Hspace. eauto.
Qed.

(** The next board depends on the engine only through its wrap flag and
    its recorded shape. *)
Lemma next_board_congr (self1 self2 : t) (a : ndarray) :
  wrap self1 = wrap self2 -> dims self1 = dims self2 ->
  next_board self1 a = next_board self2 a.
Proof.
  destruct self1, self2. simpl. intros -> ->. reflexivity.
Qed.

(** A board that is its own successor stays the engine's board value
    through any number of steps. *)
Lemma steps_fixed_board (n : nat) (a : ndarray) :
  forall (self : t) (h : heap),
    h !! space self = Some a -> nd_wf a -> nd_shape a = dims self ->
    ind_list self = make_ind_list (dims self) ->
    next_board self a = a ->
    exists self' h',
      steps junk n self h = ok (self', h') /\
      h' !! space self' = Some a /\
      wrap self' = wrap self /\ dims self' = dims self /\
      track self' = track self /\
      ind_list self' = ind_list self.
Proof.
  induction n as [|n IH]; intros self h Hboard Hwf Hshape Hind Hfix.
  - exists self, h. done.
  - cbn [steps]. unfold bind at 1.
    rewrite (step_run junk self h a) by done. simpl fst.
    rewrite Hfix.
    set (self1 := mk (length h) _ _ _ _ _).
    destruct (IH self1 (h ++ [a])) as (self' & h' & Hrun & ?);
      [apply lookup_fresh|done..| |by eauto].
    rewrite <- Hfix at 2. by apply next_board_congr.
Qed.

Lemma block_next_board (self : t) :
  wrap self = false -> dims self = (4%nat, 4%nat) ->
  next_board self block = block.
Proof.
  destruct self. simpl. intros -> ->. vm_compute. reflexivity.
Qed.

Lemma block_wf : nd_wf block.
Proof. split; [reflexivity|]. repeat constructor. Qed.

(** C3 (the block is a still life on a bounded board).  An engine
    constructed with wrap disabled on the 4x4 block board runs any number
    [N] of steps to completion and its board is then still the block; one
    more [step] returns a board equal to it. *)
Theorem block_is_still_life (h : heap) (l : loc) (trk : bool) (N : nat) :
  h !! l = Some block ->
  exists self hN,
    bind (__init__ l false trk) (steps junk N) h = ok (self, hN) /\
    hN !! space self = Some block /\
    exists self' returned h',
      step junk self hN = ok (self', returned, h') /\
      space self' = returned /\
      h' !! returned = Some block.
Proof.
  intros Hl. unfold bind. rewrite (init_run h l block) by done.
  destruct (steps_fixed_board N block
              (mk l (nd_shape block) false trk
                  (make_ind_list (nd_shape block)) [l]) h)
    as (self & hN & Hrun & Hboard & Hw & Hd & _ & Hind);
    [done|apply block_wf|done|done|by apply block_next_board|].
  exists self, hN. split; [exact Hrun|]. split; [done|].
  simpl in Hw, Hd, Hind.
  rewrite (step_run junk self hN block);
    [|done|apply block_wf|by rewrite Hd|by rewrite Hind, Hd].
  eexists _, _, _. split; [reflexivity|]. split; [reflexivity|].
  rewrite block_next_board by done. apply lookup_fresh.
Qed.

End HistoryClaims.

Section StepWitnesses.
Import LifeSpace LifeSpaceRef.

Lemma corner_board_wf : nd_wf corner_board.
Proof. split; [reflexivity|]. repeat constructor. Qed.

Lemma get_next_space_reads_previous_generation_witness :
  exists (new_space : loc) (new : ndarray) (h' : heap),
    get_next_space stale corner_engine [corner_board] = ok (new_space, h') /\
    [corner_board] !! new_space = None /\
    (forall l a, [corner_board] !! l = Some a -> h' !! l = Some a) /\
    h' !! space corner_engine = Some corner_board /\
    h' !! new_space = Some new /\
    nd_wf new /\ nd_shape new = nd_shape corner_board /\
    forall i j : nat,
      (i < fst (dims corner_engine))%nat ->
      (j < snd (dims corner_engine))%nat ->
      exists nbrs n live,
        get_neighbors corner_engine [Z.of_nat i; Z.of_nat j] = ok nbrs /\
        live_count corner_board nbrs = ok n /\
        nd_getitem corner_board [Z.of_nat i; Z.of_nat j] = ok live /\
        nd_getitem new [Z.of_nat i; Z.of_nat j] = ok (check_live live n).
Proof.
  apply (get_next_space_reads_previous_generation stale corner_engine
           [corner_board] corner_board).
  - reflexivity.
  - split; [reflexivity|]. repeat constructor.
  - reflexivity.
  - reflexivity.
Defined.

Lemma history_has_one_board_per_step_witness :
  exists self h',
    bind (__init__ 0%nat true true) (steps stale 3) [corner_board] =
      ok (self, h') /\
    length (hist self) = 4%nat /\
    head (hist self) = Some 0%nat /\
    last (hist self) = Some (space self) /\
    is_Some (h' !! space self).
Proof.
  apply (history_has_one_board_per_step stale [corner_board] 0%nat
           corner_board true 3).
  - reflexivity.
  - split; [reflexivity|]. repeat constructor.
Defined.

Lemma block_is_still_life_witness :
  exists self hN,
    bind (__init__ 0%nat false false) (steps stale 5) [block] =
      ok (self, hN) /\
    hN !! space self = Some block /\
    exists self' returned h',
      step stale self hN = ok (self', returned, h') /\
      space self' = returned /\
      h' !! returned = Some block.
Proof.
  apply (block_is_still_life stale [block] 0%nat false 5). reflexivity.
Defined.

End StepWitnesses.

(** ** The 2D engine: wrapping *)

Section WrapClaims.
Import LifeSpace LifeSpaceRef.

Lemma wrap_switch_in_range (n d : Z) :
  0 <= n <= d - 1 -> wrap_switch n d = n.
Proof.
  intros H. unfold wrap_switch.
  destruct (Z.ltb_spec n 0); [lia|].
  destruct (Z.gtb_spec n (d - 1)); lia.
Qed.

Lemma wrap_switch_below (n d : Z) : n < 0 -> wrap_switch n d = d - 1.
Proof. intros H. unfold wrap_switch. destruct (Z.ltb_spec n 0); lia. Qed.

Lemma wrap_switch_above (n d : Z) : 0 <= n -> d - 1 < n -> wrap_switch n d = 0.
Proof.
  intros H0 H. unfold wrap_switch.
  destruct (Z.ltb_spec n 0); [lia|].
  destruct (Z.gtb_spec n (d - 1)); lia.
Qed.

(** One step below or above a cell's coordinate lands on that coordinate
    again exactly when the axis has a single position. *)
Lemma wrap_switch_pred_self (n d : Z) :
  0 <= n <= d - 1 -> wrap_switch (n - 1) d = n <-> d = 1.
Proof.
  intros H. unfold wrap_switch.
  destruct (Z.ltb_spec (n - 1) 0); [lia|].
  destruct (Z.gtb_spec (n - 1) (d - 1)); lia.
Qed.

Lemma wrap_switch_succ_self (n d : Z) :
  0 <= n <= d - 1 -> wrap_switch (n + 1) d = n <-> d = 1.
Proof.
  intros H. unfold wrap_switch.
  destruct (Z.ltb_spec (n + 1) 0); [lia|].
  destruct (Z.gtb_spec (n + 1) (d - 1)); lia.
Qed.

Lemma pair_eq (x y x' y' : Z) : [x; y] = [x'; y'] <-> x = x' /\ y = y'.
Proof. split; [by intros [= -> ->]|by intros [-> ->]]. Qed.

(** C4, as the code has it.  With wrap enabled, [get_neighbors] of a cell
    of the board returns eight indices, one per candidate; the cell's own
    index is among them exactly when some axis has extent 1, so none of the
    eight equals it when both extents are at least 2. *)
Theorem wrap_neighbors_eight (self : t) (i j : Z) :
  wrap self = true ->
  0 <= i <= Z.of_nat (fst (dims self)) - 1 ->
  0 <= j <= Z.of_nat (snd (dims self)) - 1 ->
  exists nbrs,
    get_neighbors self [i; j] = ok nbrs /\
    length nbrs = 8%nat /\
    ([i; j] ∈ nbrs <-> fst (dims self) = 1%nat \/ snd (dims self) = 1%nat) /\
    ((2 <= fst (dims self))%nat -> (2 <= snd (dims self))%nat ->
     [i; j] ∉ nbrs).
Proof.
  intros Hwrap Hi Hj. rewrite get_neighbors_pair, Hwrap.
  eexists. split; [reflexivity|]. split; [reflexivity|].
  assert ([i; j] ∈ map (wrap_index self) (moore i j) <->
          fst (dims self) = 1%nat \/ snd (dims self) = 1%nat) as Hself.
  { unfold moore. simpl map. rewrite !wrap_index_pair.
    rewrite !elem_of_cons, elem_of_nil, !pair_eq.
    rewrite !(wrap_switch_in_range i), !(wrap_switch_in_range j) by done.
    pose proof (wrap_switch_pred_self i _ Hi).
    pose proof (wrap_switch_succ_self i _ Hi).
    pose proof (wrap_switch_pred_self j _ Hj).
    pose proof (wrap_switch_succ_self j _ Hj).
    intuition lia. }
  split; [exact Hself|]. intros Hr Hc. rewrite Hself. lia.
Qed.

Lemma wrap_neighbors_eight_witness :
  exists nbrs,
    get_neighbors (mk 0%nat (3%nat, 3%nat) true false
                     (make_ind_list (3%nat, 3%nat)) [0%nat]) [0; 2] = ok nbrs /\
    length nbrs = 8%nat /\ [0; 2] ∉ nbrs.
Proof.
  destruct (wrap_neighbors_eight
              (mk 0%nat (3%nat, 3%nat) true false
                  (make_ind_list (3%nat, 3%nat)) [0%nat]) 0 2)
    as (nbrs & Hn & Hlen & _ & Hself).
  - reflexivity.
  - simpl; lia.
  - simpl; lia.
  - exists nbrs. split; [exact Hn|]. split; [exact Hlen|].
    apply Hself; simpl; lia.
Defined.

(** C4, as claimed, fails: on a 1x1 torus every neighbour of the only cell
    is that cell. *)
Lemma wrap_neighbors_contain_own_cell :
  ~ (forall (self : t) (i j : Z),
        wrap self = true ->
        0 <= i <= Z.of_nat (fst (dims self)) - 1 ->
        0 <= j <= Z.of_nat (snd (dims self)) - 1 ->
        exists nbrs,
          get_neighbors self [i; j] = ok nbrs /\
          length nbrs = 8%nat /\ [i; j] ∉ nbrs).
Proof.
  intros H.
  destruct (H (mk 0%nat (1%nat, 1%nat) true false
                  (make_ind_list (1%nat, 1%nat)) [0%nat]) 0 0)
    as (nbrs & Hn & _ & Hself); [reflexivity|simpl; lia..|].
  vm_compute in Hn. injection Hn as <-.
  apply Hself. apply list_elem_of_here.
Qed.

(** C5, as the code has it.  For an extent [d >= 1], [wrap_switch] agrees
    with reduction modulo [d] on the coordinates [-1 .. d], those at most
    one step outside the axis; accordingly [wrap_index] reduces every such
    coordinate of an index modulo the extent of its axis.  Further out the
    coordinate is sent to the far end: [d - 1] from below, [0] from
    above. *)
Theorem wrap_switch_one_step_modulo (self : t) (index : tuple) (d n : Z) :
  1 <= d ->
  (1 <= fst (dims self))%nat -> (1 <= snd (dims self))%nat ->
  Forall (fun '(n, d) => -1 <= n <= d) (py_zip index (shape_tuple (dims self))) ->
  (-1 <= n <= d -> wrap_switch n d = n mod d) /\
  (n < 0 -> wrap_switch n d = d - 1) /\
  (d <= n -> wrap_switch n d = 0) /\
  wrap_index self index =
    map (fun '(n, d) => n mod d) (py_zip index (shape_tuple (dims self))).
Proof.
  intros Hd Hr Hc Hindex.
  assert (forall n d, 1 <= d -> -1 <= n <= d -> wrap_switch n d = n mod d)
    as Hmod.
  { clear. intros n d Hd Hn. unfold wrap_switch.
    destruct (Z.ltb_spec n 0).
    - replace n with (-1) by lia.
      replace (-1) with (d - 1 + (-1) * d) by lia.
      rewrite Z_mod_plus_full, Z.mod_small; lia.
    - destruct (Z.gtb_spec n (d - 1)).
      + replace n with d by lia. by rewrite Z_mod_same_full.
      + rewrite Z.mod_small; lia. }
  split; [by apply Hmod|].
  split; [apply wrap_switch_below|].
  split; [intros; apply wrap_switch_above; lia|].
  unfold wrap_index.
  assert (Forall (fun '(n, d) => 1 <= d) (py_zip index (shape_tuple (dims self))))
    as Hext.
  { clear -Hr Hc. unfold shape_tuple.
    destruct index as [|x [|y rest]]; simpl; repeat constructor; try lia.
    destruct rest; constructor. }
  induction Hindex as [|[n' d'] rest Hn _ IH]; [done|].
  inversion Hext; subst. simpl. f_equal; [by apply Hmod|by apply IH].
Qed.

Lemma wrap_switch_one_step_modulo_witness :
  wrap_switch (-1) 5 = 4 /\ wrap_switch 5 5 = 0 /\
  wrap_index corner_engine [-1; 3] = [2; 0].
Proof.
  destruct (wrap_switch_one_step_modulo corner_engine [-1; 3] 5 (-1))
    as (Hm & Hlow & _ & Hidx).
  - lia.
  - simpl; lia.
  - simpl; lia.
  - simpl. repeat constructor; lia.
  - split; [apply Hlow; lia|]. split; [reflexivity|]. rewrite Hidx. reflexivity.
Defined.

(** C5, as claimed, fails: two steps below the axis [wrap_switch] still
    answers [d - 1]. *)
Lemma wrap_switch_is_not_modulo :
  ~ (forall d n : Z, 1 <= d -> wrap_switch n d = n mod d).
Proof.
  intros H.
  assert (wrap_switch (-2) 5 = (-2) mod 5) as E by (apply H; lia).
  vm_compute in E. discriminate E.
Qed.

End WrapClaims.

(** ** The vectorized stub *)

Section VectorLifeClaims.
Import VectorLife.

Lemma run_loop_tape (iters : list Z) (self : t) (tp : list loc) (h : heap) :
  track self = true -> tape self = Some tp ->
  run_loop iters self h =
    ok (mk (board self) (dims self) (wrap self) (track self)
           (Some (tp ++ replicate (length iters) (board self))), h).
Proof.
  revert self tp. induction iters as [|i rest IH]; intros self tp Htrack Htape.
  - simpl. rewrite app_nil_r, <- Htape. by destruct self.
  - cbn [run_loop]. unfold bind at 1, run_body, bind at 1, step, ret at 1.
    unfold ok at 1. cbv beta iota. rewrite Htrack.
    unfold tape_append. rewrite Htape. unfold ret at 1, ok at 1. cbv beta iota.
    rewrite (IH _ (tp ++ [board self])) by done. simpl.
    by rewrite Htrack, <- app_assoc.
Qed.

Lemma vector_init_run (h : heap) (l : loc) (a : ndarray) (wrp trk : bool) :
  h !! l = Some a ->
  __init__ l wrp trk h =
    ok (mk l (nd_shape a) wrp trk (if trk then Some [l] else None), h).
Proof. intros Hl. unfold __init__, np_shape, bind, load. by rewrite Hl. Qed.

(** C9 (the stub's step does nothing).  [step] returns with the instance
    and the store exactly as they were; hence for an instance constructed
    with tracking, [run(g)] with [g >= 0] leaves the store and the board
    alone and ends with a tape of [g + 1] entries, each of them the
    reference to the initial board. *)
Theorem vectorized_step_is_identity
    (h : heap) (l : loc) (a : ndarray) (wrp : bool) (g : Z) :
  h !! l = Some a -> 0 <= g ->
  (forall (self : t) (h0 : heap), step self h0 = ok (self, h0)) /\
  exists self,
    bind (__init__ l wrp true) (fun self => run self g) h = ok (self, h) /\
    board self = l /\
    tape self = Some (replicate (Z.to_nat (g + 1)) l) /\
    (forall tp, tape self = Some tp ->
       Z.of_nat (length tp) = g + 1 /\
       Forall (fun entry => h !! entry = Some a) tp).
Proof.
  intros Hl Hg. split; [reflexivity|].
  assert (bind (__init__ l wrp true) (fun self => run self g) h =
            ok (mk l (nd_shape a) wrp true
                   (Some (replicate (Z.to_nat (g + 1)) l)), h)) as Hrun.
  { rewrite (bind_ok _ _ _ _ _ (vector_init_run h l a wrp true Hl)).
    unfold run. rewrite (run_loop_tape _ _ [l]) by done. simpl.
    unfold py_range. rewrite length_seqZ.
    replace (Z.to_nat (g + 1)) with (S (Z.to_nat g)) by lia. done. }
  eexists. split; [exact Hrun|]. simpl.
  split; [done|]. split; [done|].
  intros tp [= <-]. rewrite length_replicate. split; [lia|].
  apply Forall_replicate. done.
Qed.

(** A negative [g] gives an empty [range]: the tape keeps its single
    initial entry. *)
Lemma run_negative_keeps_tape
    (h : heap) (l : loc) (a : ndarray) (wrp : bool) (g : Z) :
  h !! l = Some a -> g < 0 ->
  bind (__init__ l wrp true) (fun self => run self g) h =
    ok (mk l (nd_shape a) wrp true (Some [l]), h).
Proof.
  intros Hl Hg.
  rewrite (bind_ok _ _ _ _ _ (vector_init_run h l a wrp true Hl)).
  unfold run, py_range. by rewrite seqZ_nil by lia.
Qed.

Lemma vectorized_step_is_identity_witness :
  exists self,
    bind (__init__ 0%nat false true) (fun self => run self 3)
         [LifeSpaceRef.block] = ok (self, [LifeSpaceRef.block]) /\
    board self = 0%nat /\
    tape self = Some [0%nat; 0%nat; 0%nat; 0%nat].
Proof.
  destruct (vectorized_step_is_identity [LifeSpaceRef.block] 0%nat
              LifeSpaceRef.block false 3) as (_ & self & Hrun & Hb & Ht & _).
  - reflexivity.
  - lia.
  - exists self. split; [exact Hrun|]. split; [exact Hb|exact Ht].
Defined.

End VectorLifeClaims.

(** ** The viewer *)

Section ViewerClaims.
Import LifeViewer LifeViewerRef.

Local Open Scope string_scope.

Lemma append_assoc (s1 s2 s3 : string) : (s1 ++ s2) ++ s3 = s1 ++ (s2 ++ s3).
Proof. induction s1 as [|c s1 IH]; simpl; [done|]. by rewrite IH. Qed.

Lemma append_empty (s : string) : s ++ EmptyString = s.
Proof. induction s as [|c s IH]; simpl; [done|]. by rewrite IH. Qed.

Lemma length_append (s1 s2 : string) :
  String.length (s1 ++ s2) = (String.length s1 + String.length s2)%nat.
Proof. induction s1 as [|c s1 IH]; simpl; [done|]. by rewrite IH. Qed.

Lemma length_of_list_ascii (cs : list ascii) :
  String.length (string_of_list_ascii cs) = length cs.
Proof. induction cs as [|c cs IH]; simpl; [done|]. by rewrite IH. Qed.

Lemma view_cell_char (repr : string) (j : bool) :
  view_cell repr j = repr ++ String (cell_char j) EmptyString.
Proof. by destruct j. Qed.

Lemma view_cells (row : list bool) (repr : string) :
  fold_left view_cell row repr = repr ++ string_of_list_ascii (map cell_char row).
Proof.
  revert repr. induction row as [|j row IH]; intros repr; simpl.
  - by rewrite append_empty.
  - rewrite IH, view_cell_char, append_assoc. done.
Qed.

Lemma view_rows (grid : list (list bool)) (repr : string) :
  fold_left view_row grid repr = repr ++ render grid.
Proof.
  revert repr. induction grid as [|row grid IH]; intros repr; simpl.
  - by rewrite append_empty.
  - rewrite IH. unfold view_row, render_row.
    by rewrite view_cells, !append_assoc.
Qed.

(** C10 (rendering).  [get_view] is the rows in order, each row being one
    character per cell, ['0'] for an alive cell and a space for a dead one,
    followed by a newline; the board [[true, false], [false, true]] is
    rendered as the six characters ['0'], space, newline, space, ['0'],
    newline. *)
Theorem get_view_renders_rows (grid : list (list bool)) :
  get_view grid = render grid /\
  String.length (get_view grid) =
    (list_sum (map (fun row : list bool => S (length row)) grid)) /\
  get_view [[true; false]; [false; true]] =
    String "0" (String " " (String (ascii_of_nat 10)
      (String " " (String "0" (String (ascii_of_nat 10) EmptyString))))).
Proof.
  assert (get_view grid = render grid) as Hview
    by (unfold get_view; by rewrite view_rows).
  split; [exact Hview|]. split; [|reflexivity].
  rewrite Hview. clear Hview.
  induction grid as [|row grid IH]; [done|].
  simpl. rewrite length_append, IH. unfold render_row.
  rewrite length_append, length_of_list_ascii, length_map. simpl. lia.
Qed.

End ViewerClaims.

(** ** The n-dimensional engine: rule derivation *)

Section RuleClaims.
Import LifeND LifeNDRef.

(** With [self.dims] the shape tuple that [__init__] stores, the very first
    statement of the derivation raises. *)
Lemma make_rules_shape_raises (shape : tuple) :
  make_rules (Shape shape) = raise TypeError.
Proof. reflexivity. Qed.

(** With [self.dims] the number of axes, the neighbour count is a float
    and cannot bound a [range]. *)
Lemma make_rules_axes_raises (d : Z) :
  make_rules (Axes d) = raise TypeError.
Proof. reflexivity. Qed.

(** Scanning as many counts as there are axes stops at [i = 1], where
    [ps[i] = 1/8] is still below all three proportions: nothing is found. *)
Lemma scan_two_counts_finds_nothing :
  scan_loop ps8 (py_range 2) fresh_scan = ok fresh_scan.
Proof. reflexivity. Qed.

(** Scanning the whole table yields the classical constants. *)
Lemma scan_all_counts_finds_classical_rules :
  scan_loop ps8 (py_range 8) fresh_scan =
    ok (mk_scan (mk_rules (Some 2) (Some 3) (Some 3) (Some 3)) true true true).
Proof. reflexivity. Qed.

(** C8 (rule derivation in two dimensions).  The claim expects four
    thresholds from [make_rules] on a 2-dimensional board.  On every
    stored board the constructor's call of [make_rules] raises [TypeError]
    and assigns no threshold; it does so as well when [self.dims] is the
    number of axes; and the scan over [range(2)] that it is written with
    leaves all four thresholds unassigned on the eight-neighbour table,
    where the scan over the whole table would find [2, 3, 3, 3]. *)
Theorem make_rules_derives_no_thresholds :
  (forall (h : heap) (l : loc) (a : ndarray),
      h !! l = Some a -> init_rules l h = raise TypeError) /\
  make_rules (Shape [3; 3]) = raise TypeError /\
  make_rules (Axes 2) = raise TypeError /\
  (s <- scan_loop ps8 (py_range 2) fresh_scan ;; ok (found_rules s))%res =
    ok no_rules /\
  (s <- scan_loop ps8 (py_range 8) fresh_scan ;; ok (found_rules s))%res =
    ok (mk_rules (Some 2) (Some 3) (Some 3) (Some 3)).
Proof.
  split; [|repeat split; reflexivity].
  intros h l a Hl. unfold init_rules, np_shape, bind, load. rewrite Hl.
  reflexivity.
Qed.

End RuleClaims.

(** * Further properties of the engines *)

(** ** The 2D engine: the trajectory of boards *)

Section Trajectory.
Import LifeSpace LifeSpaceRef.



Lemma generation_succ_r (self : t) (a : ndarray) (k : nat) :
  generation self a (S k) = generation self (next_board self a) k.
Proof. unfold generation. apply Nat.iter_succ_r. Qed.

Lemma generation_congr (self1 self2 : t) (a : ndarray) (k : nat) :
  wrap self1 = wrap self2 -> dims self1 = dims self2 ->
  generation self1 a k = generation self2 a k.
Proof.
  intros Hw Hd. induction k as [|k IH]; [done|].
  unfold generation in *. simpl. rewrite IH. by apply next_board_congr.
Qed.

Lemma stepped_zero (self : t) (size : nat) : stepped self size 0 = self.
Proof.
  destruct self as [sp dm wr tr il hs]. unfold stepped. simpl.
  destruct tr; by rewrite ?app_nil_r.
Qed.

Lemma stepped_succ (self : t) (size n : nat) :
  stepped
    (mk size (dims self) (wrap self) (track self) (ind_list self)
        (if track self then hist self ++ [size] else hist self))
    (S size) n =
  stepped self size (S n).
Proof.
  unfold stepped. cbn [seq space dims wrap track ind_list hist].
  rewrite last_cons_default. f_equal.
  destruct (track self); [|done]. by rewrite <- app_assoc.
Qed.

Variable junk : nat -> nat -> bool.

(** The whole effect of [n] steps: the store keeps every object it had and
    gains generations 1 to [n] of the board, in order, at the next free
    references; the engine ends up owning the last of them. *)
Lemma steps_explicit (n : nat) :
  forall (self : t) (h : heap) (a : ndarray),
    h !! space self = Some a -> nd_wf a -> nd_shape a = dims self ->
    ind_list self = make_ind_list (dims self) ->
    steps junk n self h =
      ok (stepped self (length h) n,
          h ++ map (generation self a) (seq 1 n)).
Proof.
  induction n as [|n IH]; intros self h a Hboard Hwf Hshape Hind.
  - simpl. by rewrite stepped_zero, app_nil_r.
  - cbn [steps].
    rewrite (bind_ok _ _ _ _ _ (step_run junk self h a Hboard Hwf Hshape Hind)).
    simpl fst. set (self1 := mk (length h) _ _ _ _ _).
    rewrite (IH self1 (h ++ [next_board self a]) (next_board self a));
      [|apply lookup_fresh|apply next_board_wf|done..].
    rewrite length_app. simpl length.
    replace (length h + 1)%nat with (S (length h)) by lia.
    unfold self1. rewrite stepped_succ. do 2 f_equal.
    rewrite <- app_assoc. f_equal. cbn [seq map app]. f_equal.
    rewrite <- (List.seq_shift n 1), map_map. apply map_ext. intros k.
    rewrite generation_succ_r. by apply generation_congr.
Qed.

End Trajectory.

Section TrajectoryProperties.
Import LifeSpace LifeSpaceRef.

Lemma last_seq (start n d : nat) :
  List.last (seq start (S n)) d = (start + n)%nat.
Proof.
  revert start d. induction n as [|n IH]; intros start d.
  - simpl. lia.
  - change (seq start (S (S n))) with (start :: seq (S start) (S n)).
    rewrite last_cons_default, IH. lia.
Qed.

Lemma lookup_generations (self : t) (a : ndarray) (h : heap) (n k : nat) :
  (k < n)%nat ->
  (h ++ map (generation self a) (seq 1 n)) !! (length h + k)%nat =
    Some (generation self a (S k)).
Proof.
  intros Hk. rewrite lookup_app_r by lia.
  replace (length h + k - length h)%nat with k by lia.
  change (map ?f ?xs) with (f <$> xs).
  by rewrite list_lookup_fmap, lookup_seq_lt.
Qed.

Variable junk : nat -> nat -> bool.

Lemma init_steps_explicit
    (h : heap) (l : loc) (a : ndarray) (wrp trk : bool) (N : nat) :
  h !! l = Some a -> nd_wf a ->
  let self0 := mk l (nd_shape a) wrp trk (make_ind_list (nd_shape a)) [l] in
  bind (__init__ l wrp trk) (steps junk N) h =
    ok (stepped self0 (length h) N,
        h ++ map (generation self0 a) (seq 1 N)).
Proof.
  intros Hl Hwf self0.
  rewrite (bind_ok _ _ _ _ _ (init_run h l a wrp trk Hl)).
  by apply steps_explicit.
Qed.

(** The run from construction, stated with the engine it ends in. *)
Lemma init_steps_final
    (h : heap) (l : loc) (a : ndarray) (wrp trk : bool) (N : nat) :
  h !! l = Some a -> nd_wf a ->
  let self :=
    stepped (mk l (nd_shape a) wrp trk (make_ind_list (nd_shape a)) [l])
            (length h) N in
  bind (__init__ l wrp trk) (steps junk N) h =
    ok (self, h ++ map (generation self a) (seq 1 N)).
Proof.
  intros Hl Hwf self.
  rewrite (init_steps_explicit h l a wrp trk N Hl Hwf). reflexivity.
Qed.

(** X1.  The store after [N] steps: every object it held is still there,
    unchanged, followed by generations 1 to [N] of the board in order; the
    engine's board is generation [N] and its flags and shape are those it
    was constructed with. *)
Theorem steps_append_generations
    (h : heap) (l : loc) (a : ndarray) (wrp trk : bool) (N : nat) :
  h !! l = Some a -> nd_wf a ->
  exists self,
    bind (__init__ l wrp trk) (steps junk N) h =
      ok (self, h ++ map (generation self a) (seq 1 N)) /\
    wrap self = wrp /\ track self = trk /\ dims self = nd_shape a /\
    (h ++ map (generation self a) (seq 1 N)) !! space self =
      Some (generation self a N).
Proof.
  intros Hl Hwf.
  pose proof (init_steps_final h l a wrp trk N Hl Hwf) as Hrun.
  set (self := stepped _ _ _) in Hrun. cbv zeta in Hrun.
  exists self. split; [exact Hrun|].
  do 3 (split; [done|]).
  replace (space self) with
    (List.last (seq (length h) N) l) by done.
  destruct N as [|n].
  - simpl. rewrite app_nil_r. exact Hl.
  - rewrite last_seq. apply lookup_generations. lia.
Qed.

(** X2.  With tracking, entry [k] of the history refers to generation [k] of the
    initial board, for every [k] up to the number of steps taken: earlier
    boards are never overwritten by later steps. *)
Theorem history_entries_are_generations
    (h : heap) (l : loc) (a : ndarray) (wrp : bool) (N k : nat) :
  h !! l = Some a -> nd_wf a -> (k <= N)%nat ->
  exists self h' entry,
    bind (__init__ l wrp true) (steps junk N) h = ok (self, h') /\
    hist self !! k = Some entry /\
    h' !! entry = Some (generation self a k).
Proof.
  intros Hl Hwf Hk.
  pose proof (init_steps_final h l a wrp true N Hl Hwf) as Hrun.
  set (self := stepped _ _ _) in Hrun. cbv zeta in Hrun.
  exists self, (h ++ map (generation self a) (seq 1 N)).
  destruct k as [|k].
  - exists l. split; [exact Hrun|]. split; [done|]. by apply lookup_app_l_Some.
  - exists (length h + k)%nat. split; [exact Hrun|]. split.
    + replace (hist self) with (l :: seq (length h) N) by done.
      simpl. apply lookup_seq_lt. lia.
    + apply lookup_generations. lia.
Qed.

(** X3.  Without tracking the history never grows: it keeps referring to the
    initial board, which stays as it was, while from the first step on the
    engine's board is another object. *)
Theorem untracked_history_keeps_initial_board
    (h : heap) (l : loc) (a : ndarray) (wrp : bool) (N : nat) :
  h !! l = Some a -> nd_wf a ->
  exists self h',
    bind (__init__ l wrp false) (steps junk N) h = ok (self, h') /\
    hist self = [l] /\ h' !! l = Some a /\
    ((1 <= N)%nat -> space self <> l) /\
    h' !! space self = Some (generation self a N).
Proof.
  intros Hl Hwf.
  pose proof (init_steps_final h l a wrp false N Hl Hwf) as Hrun.
  set (self := stepped _ _ _) in Hrun. cbv zeta in Hrun.
  exists self, (h ++ map (generation self a) (seq 1 N)).
  split; [exact Hrun|].
  split; [done|]. split; [by apply lookup_app_l_Some|].
  replace (space self) with (List.last (seq (length h) N) l) by done.
  destruct N as [|n].
  - split; [lia|]. simpl. rewrite app_nil_r. exact Hl.
  - rewrite last_seq. split.
    + intros _. apply lookup_lt_Some in Hl. lia.
    + apply lookup_generations. lia.
Qed.

(** X4.  What [np.empty] leaves in a new array never shows: the engine and the
    store after any number of steps are the same for any two allocators. *)
Theorem steps_ignore_uninitialised_memory
    (junk' : nat -> nat -> bool)
    (h : heap) (l : loc) (a : ndarray) (wrp trk : bool) (N : nat) :
  h !! l = Some a -> nd_wf a ->
  bind (__init__ l wrp trk) (steps junk N) h =
    bind (__init__ l wrp trk) (steps junk' N) h.
Proof.
  intros Hl Hwf.
  rewrite (bind_ok _ _ _ _ _ (init_run h l a wrp trk Hl)).
  rewrite (bind_ok _ _ _ _ _ (init_run h l a wrp trk Hl)).
  rewrite !steps_explicit with (a := a); done.
Qed.

End TrajectoryProperties.

(** ** The 2D engine: the dead board *)

Section DeadBoard.
Import LifeSpace LifeSpaceRef.

Lemma dead_board_getitem (dims : nat * nat) (index : tuple) (v : bool) :
  nd_getitem (dead_board dims) index = ok v -> v = false.
Proof.
  unfold nd_getitem. destruct index as [|i [|j [|? ?]]]; try done.
  simpl nd_shape.
  destruct (norm_index i (fst dims)) as [e|i'] eqn:Hi; [done|].
  destruct (norm_index j (snd dims)) as [e|j'] eqn:Hj; [done|].
  rewrite !res_bind_ok. unfold dead_board.
  rewrite nd_cell_tabulate by eauto using norm_index_bound.
  by intros [= <-].
Qed.

Lemma py_sum_all_dead (vs : list bool) :
  Forall (fun v => v = false) vs -> py_sum vs = 0.
Proof.
  induction 1 as [|v vs -> _ IH]; [done|]. by rewrite py_sum_cons, IH.
Qed.

Lemma dead_board_next (self : t) :
  next_board self (dead_board (dims self)) = dead_board (dims self).
Proof.
  apply nd_ext; [apply next_board_wf|apply nd_tabulate_wf|done|].
  simpl nd_shape. intros i j Hi Hj.
  assert (nd_cell (dead_board (dims self)) i j = Some false) as ->
    by (by apply nd_cell_tabulate).
  unfold next_board. rewrite nd_cell_tabulate by done.
  f_equal. unfold next_state.
  destruct (next_cell_ok self (dead_board (dims self)) i j)
    as (nbrs & n & live & _ & Hcount & Hlive & Hnext);
    [apply nd_tabulate_wf|done..|].
  unfold cell_index. simpl fst. simpl snd. rewrite Hnext.
  apply dead_board_getitem in Hlive as ->.
  unfold live_count in Hcount.
  destruct (read_all (dead_board (dims self)) nbrs) as [e|vs] eqn:Hvs; [done|].
  rewrite res_bind_ok in Hcount. injection Hcount as <-.
  rewrite py_sum_all_dead; [done|].
  apply read_all_Forall2 in Hvs. revert Hvs. clear.
  induction 1; constructor; eauto using dead_board_getitem.
Qed.

(** X5.  A board with no live cell stays that way: whatever its shape and the
    wrap policy, after any number of steps the engine's board is the
    all-dead board again. *)
Theorem dead_board_stays_dead
    (junk : nat -> nat -> bool)
    (h : heap) (l : loc) (shape : nat * nat) (wrp trk : bool) (N : nat) :
  h !! l = Some (dead_board shape) ->
  exists self h',
    bind (__init__ l wrp trk) (steps junk N) h = ok (self, h') /\
    h' !! space self = Some (dead_board shape).
Proof.
  intros Hl.
  rewrite (bind_ok _ _ _ _ _ (init_run h l _ wrp trk Hl)).
  destruct (steps_fixed_board junk N (dead_board shape)
              (mk l shape wrp trk (make_ind_list shape) [l]) h)
    as (self & h' & Hrun & Hboard & _);
    [done|apply nd_tabulate_wf|done|done|apply (dead_board_next (mk l shape _ _ _ _))|].
  exists self, h'. split; [exact Hrun|done].
Qed.

End DeadBoard.

Section DeadBoardWitness.
Import LifeSpace LifeSpaceRef.

Lemma dead_board_stays_dead_witness :
  exists self h',
    bind (__init__ 0%nat true false) (steps stale 4)
         [dead_board (2%nat, 3%nat)] = ok (self, h') /\
    h' !! space self = Some (dead_board (2%nat, 3%nat)).
Proof.
  apply (dead_board_stays_dead stale [dead_board (2%nat, 3%nat)] 0%nat
           (2%nat, 3%nat) true false 4).
  reflexivity.
Defined.

End DeadBoardWitness.

(** ** The 2D engine: further facts about neighbourhoods *)

Section NeighborhoodProperties.
Import LifeSpace LifeSpaceRef.

(** X6.  [get_neighbors] is defined on two-coordinate indices only: with
    fewer coordinates [ranges[0]] or [ranges[1]] does not exist, with more
    the index is not among the candidates that [remove] searches. *)
Theorem get_neighbors_needs_two_coordinates (self : t) (index : tuple) :
  ((length index < 2)%nat -> get_neighbors self index = raise IndexError) /\
  ((2 < length index)%nat -> get_neighbors self index = raise ValueError) /\
  (length index = 2%nat -> exists nbrs, get_neighbors self index = ok nbrs).
Proof.
  destruct index as [|i [|j [|k rest]]]; simpl length.
  - split; [done|]. split; [lia|done].
  - split; [done|]. split; [lia|done].
  - split; [lia|]. split; [lia|]. intros _. rewrite get_neighbors_pair. eauto.
  - split; [lia|]. split; [|lia]. intros _.
    unfold get_neighbors, py_index. simpl.
    repeat (rewrite decide_False by (intros [=])). done.
Qed.

Lemma check_valid_index_pair_bool (self : t) (x y : Z) :
  check_valid_index self [x; y] =
    (x <=? Z.of_nat (fst (dims self)) - 1) &&
    (y <=? Z.of_nat (snd (dims self)) - 1).
Proof.
  apply eq_true_iff_eq. rewrite check_valid_index_pair.
  rewrite andb_true_iff, !Z.leb_le. done.
Qed.



(** X8.  Away from the edges the wrap policy makes no difference: a cell with a
    full ring of cells around it gets exactly its eight surrounding
    indices, all of them in bounds. *)
Theorem interior_neighbors_are_the_ring (self : t) (i j : Z) :
  1 <= i <= Z.of_nat (fst (dims self)) - 2 ->
  1 <= j <= Z.of_nat (snd (dims self)) - 2 ->
  get_neighbors self [i; j] = ok (moore i j) /\
  Forall (in_bounds (dims self)) (moore i j).
Proof.
  intros Hi Hj. split.
  - rewrite get_neighbors_pair. f_equal. destruct (wrap self).
    + unfold moore. simpl map. rewrite !wrap_index_pair.
      rewrite !wrap_switch_in_range by lia. done.
    + unfold moore. cbn [List.filter].
      rewrite !check_valid_index_pair_bool.
      rewrite !(proj2 (Z.leb_le _ _)) by lia. done.
  - unfold moore. do 8 (constructor; [rewrite in_bounds_pair; lia|]).
    constructor.
Qed.

Lemma wrap_switch_idempotent (n d : Z) :
  wrap_switch (wrap_switch n d) d = wrap_switch n d.
Proof.
  unfold wrap_switch.
  destruct (Z.ltb_spec n 0).
  - destruct (Z.ltb_spec (d - 1) 0); [done|].
    destruct (Z.gtb_spec (d - 1) (d - 1)); [lia|done].
  - destruct (Z.gtb_spec n (d - 1)).
    + simpl. destruct (Z.gtb_spec 0 (d - 1)); done.
    + destruct (Z.ltb_spec n 0); [lia|].
      destruct (Z.gtb_spec n (d - 1)); [lia|done].
Qed.

Lemma wrap_all_in_range (index extents : list Z) :
  Forall (fun d => 1 <= d) extents ->
  Forall (fun '(n, d) => 0 <= n <= d - 1)
    (py_zip (map (fun '(n, d) => wrap_switch n d) (py_zip index extents))
            extents).
Proof.
  intros Hext. revert index.
  induction Hext as [|d extents Hd _ IH]; intros [|n index]; simpl;
    try constructor.
  - by apply wrap_switch_range.
  - apply IH.
Qed.

Lemma wrap_all_idempotent (index extents : list Z) :
  map (fun '(n, d) => wrap_switch n d)
    (py_zip (map (fun '(n, d) => wrap_switch n d) (py_zip index extents))
            extents) =
  map (fun '(n, d) => wrap_switch n d) (py_zip index extents).
Proof.
  revert extents. induction index as [|n index IH]; intros [|d extents];
    simpl; try done.
  by rewrite wrap_switch_idempotent, IH.
Qed.

Lemma wrap_index_in_bounds (self : t) (index : tuple) :
  (1 <= fst (dims self))%nat -> (1 <= snd (dims self))%nat ->
  in_bounds (dims self) (wrap_index self index).
Proof.
  intros Hr Hc. apply wrap_all_in_range.
  unfold shape_tuple. repeat constructor; lia.
Qed.

(** X9.  Wrapping lands on the board: on a board with at least one row and one
    column, the wrapped form of any index is in bounds and passes
    [check_valid_index], and wrapping it again changes nothing. *)
Theorem wrap_index_lands_on_board (self : t) (index : tuple) :
  (1 <= fst (dims self))%nat -> (1 <= snd (dims self))%nat ->
  in_bounds (dims self) (wrap_index self index) /\
  check_valid_index self (wrap_index self index) = true /\
  wrap_index self (wrap_index self index) = wrap_index self index.
Proof.
  intros Hr Hc.
  pose proof (wrap_index_in_bounds self index Hr Hc) as Hin.
  split; [exact Hin|]. split; [|apply wrap_all_idempotent].
  apply check_valid_index_spec.
  eapply Forall_impl; [exact Hin|]. intros [n d]. lia.
Qed.

(** X10.  On a torus no neighbour is ever read through a negative position: with
    wrap enabled, the eight neighbours of any two-coordinate index are in
    bounds. *)
Theorem wrapped_neighbors_in_bounds (self : t) (i j : Z) :
  wrap self = true ->
  (1 <= fst (dims self))%nat -> (1 <= snd (dims self))%nat ->
  exists nbrs,
    get_neighbors self [i; j] = ok nbrs /\
    Forall (in_bounds (dims self)) nbrs.
Proof.
  intros Hwrap Hr Hc. rewrite get_neighbors_pair, Hwrap.
  eexists. split; [reflexivity|].
  apply Forall_forall. intros nb Hnb.
  change (map ?f ?xs) with (f <$> xs) in Hnb.
  apply list_elem_of_fmap in Hnb as (cand & -> & _).
  by apply wrap_index_in_bounds.
Qed.

End NeighborhoodProperties.

(** ** The 2D engine: counting and enumerating *)

Section CountingProperties.
Import LifeSpace LifeSpaceRef.

Lemma filter_length_le {A : Type} (f : A -> bool) (xs : list A) :
  (length (List.filter f xs) <= length xs)%nat.
Proof.
  induction xs as [|x xs IH]; simpl; [lia|]. destruct (f x); simpl; lia.
Qed.

(** X11.  The count a cell's next state is decided on always exists and lies
    between 0 and 8, under either wrap policy. *)
Theorem live_neighbor_count_range
    (self : t) (h : heap) (a : ndarray) (i j : Z) :
  h !! space self = Some a -> nd_wf a -> nd_shape a = dims self ->
  0 <= i < Z.of_nat (fst (dims self)) ->
  0 <= j < Z.of_nat (snd (dims self)) ->
  exists nbrs n,
    get_neighbors self [i; j] = ok nbrs /\
    count_live_neighbors self nbrs h = ok (n, h) /\
    0 <= n <= 8.
Proof.
  intros Hboard Hwf Hshape Hi Hj.
  destruct (get_neighbors_resolvable self i j Hi Hj) as (nbrs & Hn & Hres).
  rewrite <- Hshape in Hres.
  destruct (read_all_ok a nbrs Hwf Hres) as (vs & Hvs & Hlen).
  exists nbrs, (py_sum vs). split; [done|]. split.
  - rewrite (count_live_neighbors_run self h a) by done.
    unfold live_count. by rewrite Hvs.
  - pose proof (py_sum_bounds vs) as Hsum. rewrite Hlen in Hsum.
    assert (length nbrs <= 8)%nat; [|lia].
    rewrite get_neighbors_pair in Hn.
    assert (nbrs = (if wrap self then map (wrap_index self) (moore i j)
                    else List.filter (check_valid_index self) (moore i j)))
      as -> by (unfold ok in Hn; congruence).
    destruct (wrap self).
    + by rewrite length_map.
    + apply (filter_length_le _ (moore i j)).
Qed.

Lemma bind_length_const {A B : Type} (f : A -> list B) (xs : list A) (c : nat) :
  (forall x, length (f x) = c) -> length (xs ≫= f) = (length xs * c)%nat.
Proof.
  intros Hf. induction xs as [|x xs IH]; [done|].
  cbn [mbind list_bind]. cbn [mbind list_bind] in IH.
  rewrite length_app, Hf, IH. simpl. lia.
Qed.

Lemma cells_length (dims : nat * nat) :
  length (cells dims) = (fst dims * snd dims)%nat.
Proof.
  unfold cells.
  rewrite (bind_length_const _ _ (snd dims)); [by rewrite length_seq|].
  intros i. rewrite (bind_length_const _ _ 1%nat); [|done].
  rewrite length_seq. lia.
Qed.

Lemma cells_NoDup (dims : nat * nat) : NoDup (cells dims).
Proof.
  unfold cells. apply NoDup_bind; [| |apply NoDup_seq].
  - intros i1 i2 p _ _ Hp1 Hp2.
    apply list_elem_of_bind in Hp1 as (j1 & Hp1 & _).
    apply list_elem_of_bind in Hp2 as (j2 & Hp2 & _).
    apply list_elem_of_singleton in Hp1, Hp2. congruence.
  - intros i _. apply NoDup_bind; [| |apply NoDup_seq].
    + intros j1 j2 p _ _ Hp1 Hp2.
      apply list_elem_of_singleton in Hp1, Hp2. congruence.
    + intros j _. apply NoDup_singleton.
Qed.

#[local] Instance cell_index_inj : Inj (=) (=) cell_index.
Proof.
  intros [i1 j1] [i2 j2]. unfold cell_index. simpl.
  intros [= Hi Hj]. f_equal; lia.
Qed.

(** X12.  The index list drives one update per cell: it holds exactly the
    in-bounds indices of the board, each once, so as many as the board has
    cells (none for a board with no rows or no columns). *)
Theorem ind_list_enumerates_board (dims : nat * nat) :
  (forall index, index ∈ make_ind_list dims <->
                 length index = 2%nat /\ in_bounds dims index) /\
  NoDup (make_ind_list dims) /\
  length (make_ind_list dims) = (fst dims * snd dims)%nat.
Proof.
  rewrite make_ind_list_cells. split; [|split].
  - intros index. change (map ?f ?xs) with (f <$> xs).
    rewrite list_elem_of_fmap. split.
    + intros ([i j] & -> & Hin). apply elem_of_cells in Hin. simpl in Hin.
      split; [done|]. unfold cell_index. rewrite in_bounds_pair. simpl. lia.
    + intros [Hlen Hin].
      destruct index as [|x [|y [|? ?]]]; try done.
      apply in_bounds_pair in Hin.
      exists (Z.to_nat x, Z.to_nat y). split.
      * unfold cell_index. simpl. by rewrite !Z2Nat.id by lia.
      * apply elem_of_cells. simpl. lia.
  - change (map ?f ?xs) with (f <$> xs).
    apply (NoDup_fmap_2 cell_index), cells_NoDup.
  - by rewrite length_map, cells_length.
Qed.

End CountingProperties.

Section EngineWitnesses.
Import LifeSpace LifeSpaceRef.

Lemma steps_append_generations_witness :
  exists self,
    bind (__init__ 0%nat false false) (steps stale 2) [corner_board] =
      ok (self, [corner_board] ++ map (generation self corner_board) (seq 1 2)) /\
    wrap self = false /\ track self = false /\
    dims self = nd_shape corner_board /\
    ([corner_board] ++ map (generation self corner_board) (seq 1 2))
      !! space self = Some (generation self corner_board 2).
Proof.
  apply (steps_append_generations stale [corner_board] 0%nat corner_board
           false false 2).
  - reflexivity.
  - apply corner_board_wf.
Defined.

Lemma history_entries_are_generations_witness :
  exists self h' entry,
    bind (__init__ 0%nat false true) (steps stale 3) [corner_board] =
      ok (self, h') /\
    hist self !! 2%nat = Some entry /\
    h' !! entry = Some (generation self corner_board 2).
Proof.
  apply (history_entries_are_generations stale [corner_board] 0%nat
           corner_board false 3 2).
  - reflexivity.
  - apply corner_board_wf.
  - lia.
Defined.

Lemma untracked_history_keeps_initial_board_witness :
  exists self h',
    bind (__init__ 0%nat true false) (steps stale 2) [corner_board] =
      ok (self, h') /\
    hist self = [0%nat] /\ h' !! 0%nat = Some corner_board /\
    ((1 <= 2)%nat -> space self <> 0%nat) /\
    h' !! space self = Some (generation self corner_board 2).
Proof.
  apply (untracked_history_keeps_initial_board stale [corner_board] 0%nat
           corner_board true 2).
  - reflexivity.
  - apply corner_board_wf.
Defined.

Lemma steps_ignore_uninitialised_memory_witness :
  bind (__init__ 0%nat false true) (steps stale 2) [corner_board] =
  bind (__init__ 0%nat false true) (steps (fun _ _ => false) 2) [corner_board].
Proof.
  apply (steps_ignore_uninitialised_memory stale (fun _ _ => false)
           [corner_board] 0%nat corner_board false true 2).
  - reflexivity.
  - apply corner_board_wf.
Defined.


Lemma interior_neighbors_are_the_ring_witness :
  get_neighbors corner_engine [1; 1] = ok (moore 1 1) /\
  Forall (in_bounds (dims corner_engine)) (moore 1 1).
Proof.
  apply (interior_neighbors_are_the_ring corner_engine 1 1); simpl; lia.
Defined.

Lemma wrap_index_lands_on_board_witness :
  in_bounds (dims corner_engine) (wrap_index corner_engine [-7; 9]) /\
  check_valid_index corner_engine (wrap_index corner_engine [-7; 9]) = true /\
  wrap_index corner_engine (wrap_index corner_engine [-7; 9]) =
    wrap_index corner_engine [-7; 9].
Proof.
  apply (wrap_index_lands_on_board corner_engine [-7; 9]); simpl; lia.
Defined.

Lemma wrapped_neighbors_in_bounds_witness :
  exists nbrs,
    get_neighbors (mk 0%nat (3%nat, 3%nat) true false
                     (make_ind_list (3%nat, 3%nat)) [0%nat]) [0; 2] = ok nbrs /\
    Forall (in_bounds (3%nat, 3%nat)) nbrs.
Proof.
  apply (wrapped_neighbors_in_bounds
           (mk 0%nat (3%nat, 3%nat) true false
               (make_ind_list (3%nat, 3%nat)) [0%nat]) 0 2).
  - reflexivity.
  - simpl; lia.
  - simpl; lia.
Defined.

Lemma live_neighbor_count_range_witness :
  exists nbrs n,
    get_neighbors corner_engine [0; 0] = ok nbrs /\
    count_live_neighbors corner_engine nbrs [corner_board] =
      ok (n, [corner_board]) /\
    0 <= n <= 8.
Proof.
  apply (live_neighbor_count_range corner_engine [corner_board]
           corner_board 0 0).
  - reflexivity.
  - apply corner_board_wf.
  - reflexivity.
  - simpl; lia.
  - simpl; lia.
Defined.

End EngineWitnesses.

(** ** The viewer: rendering can be read back *)

Section ViewProperties.
Import LifeViewer LifeViewerRef.

Local Open Scope string_scope.

Lemma parse_cells (row : list bool) (rest : string) (acc : list bool) :
  parse_rows (string_of_list_ascii (map cell_char row) ++ rest) acc =
    parse_rows rest (rev row ++ acc).
Proof.
  revert acc. induction row as [|c row IH]; intros acc; [done|].
  simpl map. simpl string_of_list_ascii. simpl append. cbn [parse_rows].
  assert (Ascii.eqb (cell_char c) (ascii_of_nat 10) = false) as ->
    by (by destruct c).
  assert (Ascii.eqb (cell_char c) "0"%char = c) as -> by (by destruct c).
  rewrite IH. simpl. by rewrite <- app_assoc.
Qed.

Lemma parse_render (grid : list (list bool)) :
  parse_rows (render grid) [] = grid.
Proof.
  induction grid as [|row grid IH]; [done|].
  simpl render. unfold render_row. rewrite append_assoc, parse_cells.
  unfold newline. simpl append. cbn [parse_rows].
  rewrite Ascii.eqb_refl, app_nil_r, rev_involutive, IH. done.
Qed.

(** X13.  Nothing is lost in rendering: reading the text of [get_view] back row
    by row gives the board that was rendered, so two boards with the same
    view are the same board. *)
Theorem get_view_can_be_read_back (grid grid' : list (list bool)) :
  parse_view (get_view grid) = grid /\
  (get_view grid = get_view grid' -> grid = grid').
Proof.
  assert (forall g, parse_view (get_view g) = g) as Hback.
  { intros g. unfold parse_view, get_view. rewrite view_rows. simpl.
    apply parse_render. }
  split; [apply Hback|].
  intros Heq. rewrite <- (Hback grid), <- (Hback grid'). by rewrite Heq.
Qed.

(** X14.  The view of rows stacked on rows is the two views one after the
    other. *)
Theorem get_view_stacks (top bottom : list (list bool)) :
  get_view (top ++ bottom) = get_view top ++ get_view bottom.
Proof.
  unfold get_view. rewrite fold_left_app, !view_rows. done.
Qed.

End ViewProperties.

(** ** The viewer: the draw loop *)

Section DrawProperties.
Import LifeSpaceRef LifeViewer LifeViewerRef.

Variable junk : nat -> nat -> bool.
Variable fits : string -> bool.



(** One pass of the loop on a board that the engine can step. *)
Lemma draw_frame_run
    (fr : Z) (eng : LifeSpace.t) (log : list call) (h : heap) (a : ndarray) :
  h !! LifeSpace.space eng = Some a -> nd_wf a ->
  nd_shape a = LifeSpace.dims eng ->
  LifeSpace.ind_list eng = LifeSpace.make_ind_list (LifeSpace.dims eng) ->
  draw_frame junk fits fr (mk_outcome eng log h None) =
    let text := get_view (nd_rows (next_board eng a)) in
    let eng1 := stepped eng (length h) 1 in
    let h1 := h ++ [next_board eng a] in
    if fits text then
      if fr =? 0 then
        mk_outcome eng1 (log ++ [AddStr 0 0 text] ++ [Refresh]) h1
          (Some ZeroDivisionError)
      else if fr <? 0 then
        mk_outcome eng1 (log ++ [AddStr 0 0 text] ++ [Refresh]) h1
          (Some (Py ValueError))
      else mk_outcome eng1 (log ++ frame_calls fr (next_board eng a)) h1 None
    else mk_outcome eng1 (log ++ [AddStr 0 0 text]) h1 (Some CursesError).
Proof.
  intros Hboard Hwf Hshape Hind. unfold draw_frame. cbn [engine store calls].
  rewrite (step_run junk eng h a) by done. unfold ok. cbv beta iota.
  rewrite lookup_fresh. unfold addstr, sleep_frame, frame_calls. cbv zeta.
  destruct (fits _); [|done].
  destruct (fr =? 0); [by rewrite <- app_assoc|].
  destruct (fr <? 0); by rewrite <- !app_assoc.
Qed.


End DrawProperties.

Section DrawTheorems.
Import LifeSpaceRef LifeViewer LifeViewerRef.

Variable junk : nat -> nat -> bool.
Variable fits : string -> bool.



(** X15.  A terminal too small for the initial board is reported at once:
    [_draw] raises [ValueError] after its first [addstr], the engine has
    not stepped and the store is as it was. *)
Theorem draw_too_small_stops_before_stepping
    (self : t) (g : Z) (h : heap) (a : ndarray) :
  h !! LifeSpace.space (life_space self) = Some a ->
  fits (get_view (nd_rows a)) = false ->
  _draw junk fits self g h =
    mk_outcome (life_space self) (first_draw a) h (Some (Py ValueError)).
Proof.
  intros Hboard Hfits. unfold _draw, addstr. by rewrite Hboard, Hfits.
Qed.


(** X17.  A frame rate of zero lets exactly one generation through: the first
    pass steps the engine and draws the board, then the division for the
    sleep raises [ZeroDivisionError]. *)
Theorem draw_zero_framerate_raises_after_one_frame
    (self : t) (g : Z) (h : heap) (a : ndarray) :
  let eng := life_space self in
  h !! LifeSpace.space eng = Some a -> nd_wf a ->
  nd_shape a = LifeSpace.dims eng ->
  LifeSpace.ind_list eng = LifeSpace.make_ind_list (LifeSpace.dims eng) ->
  framerate self = 0 -> 1 <= g ->
  fits (get_view (nd_rows a)) = true ->
  fits (get_view (nd_rows (next_board eng a))) = true ->
  _draw junk fits self g h =
    mk_outcome (stepped eng (length h) 1)
      (first_draw a ++
       [AddStr 0 0 (get_view (nd_rows (next_board eng a))); Refresh])
      (h ++ [next_board eng a]) (Some ZeroDivisionError).
Proof.
  intros eng Hboard Hwf Hshape Hind Hfr Hg Hfit0 Hfit1. unfold _draw, addstr.
  fold eng. rewrite Hboard, Hfit0, Hfr.
  unfold py_range. rewrite seqZ_cons by lia. cbn [draw_loop].
  rewrite (draw_frame_run junk fits 0 eng _ h a) by done. cbv zeta.
  rewrite Hfit1. done.
Qed.


End DrawTheorems.

Section DrawWitnesses.
Import LifeSpaceRef LifeViewer LifeViewerRef.

Lemma draw_too_small_stops_before_stepping_witness :
  _draw stale (fun _ => false) (mk corner_engine 5 10) 5 [corner_board] =
    mk_outcome corner_engine (first_draw corner_board) [corner_board]
      (Some (Py ValueError)).
Proof.
  apply (draw_too_small_stops_before_stepping stale (fun _ => false)
           (mk corner_engine 5 10) 5 [corner_board] corner_board);
    reflexivity.
Defined.


Lemma draw_zero_framerate_raises_after_one_frame_witness :
  raised (_draw stale (fun _ => true) (mk corner_engine 3 0) 3 [corner_board])
    = Some ZeroDivisionError.
Proof.
  rewrite (draw_zero_framerate_raises_after_one_frame stale (fun _ => true)
             (mk corner_engine 3 0) 3 [corner_board] corner_board).
  - reflexivity.
  - reflexivity.
  - apply corner_board_wf.
  - reflexivity.
  - reflexivity.
  - reflexivity.
  - lia.
  - reflexivity.
  - reflexivity.
Defined.


End DrawWitnesses.

(** ** The vectorized stub: further facts about [run] *)

Section VectorRunProperties.
Import VectorLife.

Lemma run_loop_untracked (iters : list Z) (self : t) (h : heap) :
  track self = false -> run_loop iters self h = ok (self, h).
Proof.
  intros Htrack. induction iters as [|i rest IH]; [done|].
  cbn [run_loop]. unfold bind at 1, run_body, bind at 1, step, ret at 1.
  unfold ok at 1. cbv beta iota. rewrite Htrack.
  unfold ret at 1, ok at 1. cbv beta iota. exact IH.
Qed.

(** X19.  Without tracking [run] does nothing at all: whatever [g], the instance
    is returned as it was constructed, with no tape, and the store is
    unchanged. *)
Theorem run_without_tracking_is_identity
    (h : heap) (l : loc) (a : ndarray) (wrp : bool) (g : Z) :
  h !! l = Some a ->
  bind (__init__ l wrp false) (fun self => run self g) h =
    ok (mk l (nd_shape a) wrp false None, h).
Proof.
  intros Hl.
  rewrite (bind_ok _ _ _ _ _ (vector_init_run h l a wrp false Hl)).
  unfold run. by apply run_loop_untracked.
Qed.

Lemma run_loop_same_length (iters iters' : list Z) (self : t) (h : heap) :
  length iters = length iters' ->
  run_loop iters self h = run_loop iters' self h.
Proof.
  revert iters' self h.
  induction iters as [|i rest IH]; intros [|i' rest'] self h Hlen; try done.
  cbn [run_loop]. unfold bind.
  destruct (run_body self h) as [e|[self' h']]; [done|].
  apply IH. by injection Hlen.
Qed.

Lemma run_loop_app (iters1 iters2 : list Z) (self : t) (h : heap) :
  run_loop (iters1 ++ iters2) self h =
    bind (run_loop iters1 self) (run_loop iters2) h.
Proof.
  revert self h. induction iters1 as [|i rest IH]; intros self h; [done|].
  cbn [app run_loop]. unfold bind in *.
  destruct (run_body self h) as [e|[self' h']]; [done|].
  apply IH.
Qed.

(** X20.  Runs add up: for any instance, running [g1] and then [g2] iterations
    is running [g1 + g2], with the same result or the same exception. *)
Theorem run_adds_up (self : t) (h : heap) (g1 g2 : Z) :
  0 <= g1 -> 0 <= g2 ->
  bind (run self g1) (fun self' => run self' g2) h = run self (g1 + g2) h.
Proof.
  intros Hg1 Hg2. unfold run, py_range.
  rewrite seqZ_app by done. rewrite run_loop_app. unfold bind.
  destruct (run_loop (seqZ 0 g1) self h) as [e|[self' h']]; [reflexivity|].
  apply run_loop_same_length. by rewrite !length_seqZ.
Qed.

(** X21.  Turning [track] on after constructing without it leaves no tape to
    append to: the first iteration of [run] raises [AttributeError]. *)
Theorem run_tracking_without_tape_raises (self : t) (h : heap) (g : Z) :
  track self = true -> tape self = None -> 1 <= g ->
  run self g h = raise AttributeError.
Proof.
  intros Htrack Htape Hg. unfold run, py_range.
  rewrite seqZ_cons by lia. cbn [run_loop].
  unfold bind at 1, run_body, bind at 1, step, ret at 1.
  unfold ok at 1. cbv beta iota. rewrite Htrack.
  unfold tape_append. by rewrite Htape.
Qed.

End VectorRunProperties.

Section VectorRunWitnesses.
Import VectorLife.

Lemma run_without_tracking_is_identity_witness :
  bind (__init__ 0%nat true false) (fun self => run self 7)
       [LifeSpaceRef.block] =
    ok (mk 0%nat (4%nat, 4%nat) true false None, [LifeSpaceRef.block]).
Proof.
  apply (run_without_tracking_is_identity [LifeSpaceRef.block] 0%nat
           LifeSpaceRef.block true 7).
  reflexivity.
Defined.

Lemma run_adds_up_witness :
  bind (run (mk 0%nat (4%nat, 4%nat) false true (Some [0%nat])) 2)
       (fun self' => run self' 3) [LifeSpaceRef.block] =
    run (mk 0%nat (4%nat, 4%nat) false true (Some [0%nat])) (2 + 3)
        [LifeSpaceRef.block].
Proof. apply run_adds_up; lia. Defined.

Lemma run_tracking_without_tape_raises_witness :
  run (mk 0%nat (4%nat, 4%nat) false true None) 1 [LifeSpaceRef.block] =
    raise AttributeError.
Proof.
  apply run_tracking_without_tape_raises; [reflexivity|reflexivity|lia].
Defined.

End VectorRunWitnesses.

(** ** The n-dimensional engine: the scan and the rule it feeds *)

Section RuleProperties.
Import LifeND LifeNDRef.

Lemma is_Some_None_false {A : Type} : is_Some (@None A) <-> false = true.
Proof. split; [by intros [? ?]|done]. Qed.

Ltac scan_step :=
  match goal with
  | |- context [ps_at ?ps ?i] => destruct (ps_at ps i) as [?|?]; simpl
  | |- context [Qle_bool ?x ?y] => destruct (Qle_bool x y); simpl
  | |- context [Qeq_bool ?x ?y] => destruct (Qeq_bool x y); simpl
  end.

Ltac scan_cases s :=
  destruct s as [[lo hi rl rh] lf hf rf];
  unfold coherent; simpl; intros Hf (Heq & Hlo & Hhi & Hrh);
  repeat scan_step; intros [= <-]; simpl;
  repeat split; try tauto; eauto; congruence.

Lemma scan_low_coherent (ps : list Q) (i : Z) (s s' : scan) :
  coherent s -> scan_low ps i s = ok s' -> coherent s'.
Proof.
  unfold scan_low. destruct (low_found s) eqn:Hf; simpl.
  - intros Hc [= <-]. exact Hc.
  - revert Hf. scan_cases s.
Qed.

Lemma scan_high_coherent (ps : list Q) (i : Z) (s s' : scan) :
  coherent s -> scan_high ps i s = ok s' -> coherent s'.
Proof.
  unfold scan_high. destruct (high_found s) eqn:Hf; simpl.
  - intros Hc [= <-]. exact Hc.
  - revert Hf. scan_cases s.
Qed.

Lemma scan_res_high_coherent (ps : list Q) (i : Z) (s s' : scan) :
  coherent s -> scan_res_high ps i s = ok s' -> coherent s'.
Proof.
  unfold scan_res_high. destruct (res_high_found s) eqn:Hf; simpl.
  - intros Hc [= <-]. exact Hc.
  - revert Hf. scan_cases s.
Qed.

Lemma scan_loop_coherent (ps : list Q) (iters : list Z) (s s' : scan) :
  coherent s -> scan_loop ps iters s = ok s' -> coherent s'.
Proof.
  revert s. induction iters as [|i rest IH]; intros s Hc; cbn [scan_loop].
  - by intros [= <-].
  - destruct (scan_low ps i s) as [e|s1] eqn:H1; [done|].
    rewrite res_bind_ok.
    destruct (scan_high ps i s1) as [e|s2] eqn:H2; [done|].
    rewrite res_bind_ok.
    destruct (scan_res_high ps i s2) as [e|s3] eqn:H3; [done|].
    rewrite res_bind_ok.
    assert (coherent s3) as Hc3
      by eauto using scan_low_coherent, scan_high_coherent,
                     scan_res_high_coherent.
    destruct (low_found s3 && high_found s3 && res_high_found s3).
    + by intros [= <-].
    + by apply IH.
Qed.

(** X22.  Whatever table and counts the scan is run on, when it returns the upper
    survival threshold and the lower birth threshold are the same value
    (or both unassigned), and a threshold is assigned exactly when its
    flag is set. *)
Theorem scan_keeps_thresholds_coherent
    (ps : list Q) (iters : list Z) (s : scan) :
  scan_loop ps iters fresh_scan = ok s -> coherent s.
Proof.
  apply scan_loop_coherent. unfold coherent, fresh_scan. simpl.
  repeat split; try done; by intros [? ?].
Qed.

(** X23.  Scanning the whole eight-neighbour table gives thresholds under which
    the n-dimensional rule is the classical one: [check_live] then agrees
    with the 2D engine's [check_live] for every cell state and count. *)
Theorem full_scan_gives_classical_rule :
  exists s,
    scan_loop ps8 (py_range 8) fresh_scan = ok s /\
    forall (live : bool) (n_count : Z),
      check_live (found_rules s) live n_count =
        ok (LifeSpace.check_live live n_count).
Proof.
  exists (mk_scan (mk_rules (Some 2) (Some 3) (Some 3) (Some 3)) true true true).
  split; [reflexivity|]. intros live n.
  unfold check_live, LifeSpace.check_live. simpl.
  destruct live; rewrite ?res_bind_ok.
  - destruct (Z.geb_spec n 2); rewrite ?res_bind_ok;
      [destruct (Z.leb_spec n 3)|];
      destruct (Z.eqb_spec n 2); destruct (Z.eqb_spec n 3); simpl;
      try lia; reflexivity.
  - destruct (Z.geb_spec n 3); rewrite ?res_bind_ok;
      [destruct (Z.leb_spec n 3)|];
      destruct (Z.eqb_spec n 3); simpl; try lia; reflexivity.
Qed.

(** X24.  The scan as [make_rules] runs it in two dimensions, over [range(2)],
    assigns nothing, and with nothing assigned [check_live] cannot decide
    any cell: it raises [AttributeError] for every state and count. *)
Theorem short_scan_leaves_check_live_undefined :
  exists s,
    scan_loop ps8 (py_range 2) fresh_scan = ok s /\
    found_rules s = no_rules /\
    forall (live : bool) (n_count : Z),
      check_live (found_rules s) live n_count = raise AttributeError.
Proof.
  exists fresh_scan. split; [reflexivity|]. split; [reflexivity|].
  intros [|] n; reflexivity.
Qed.

End RuleProperties.

Section RuleWitnesses.
Import LifeND LifeNDRef.

Lemma scan_keeps_thresholds_coherent_witness :
  coherent (mk_scan (mk_rules (Some 2) (Some 3) (Some 3) (Some 3))
              true true true).
Proof.
  apply (scan_keeps_thresholds_coherent ps8 (py_range 8)). reflexivity.
Defined.

End RuleWitnesses.

(** ** The n-dimensional engine: indices *)

Section NdIndexProperties.
Import LifeND.

Lemma nd_exceeds_none_spec (pairs : list (Z * Z)) :
  exceeds_none pairs = true <-> Forall (fun '(n, d) => n <= d - 1) pairs.
Proof.
  induction pairs as [|[n d] rest IH]; simpl.
  - split; auto.
  - destruct (Z.gtb_spec n (d - 1)).
    + split; [discriminate|]. intros H'. inversion H'. lia.
    + rewrite IH. split.
      * intros ?. constructor; [lia|done].
      * intros H'. by inversion H'.
Qed.

Lemma nd_wrap_switch_range (n d : Z) :
  1 <= d -> 0 <= wrap_switch n d <= d - 1.
Proof.
  intros Hd. unfold wrap_switch.
  destruct (Z.ltb_spec n 0); [lia|].
  destruct (Z.gtb_spec n (d - 1)); lia.
Qed.

Lemma nd_wrap_switch_idempotent (n d : Z) :
  wrap_switch (wrap_switch n d) d = wrap_switch n d.
Proof.
  unfold wrap_switch.
  destruct (Z.ltb_spec n 0).
  - destruct (Z.ltb_spec (d - 1) 0); [done|].
    destruct (Z.gtb_spec (d - 1) (d - 1)); [lia|done].
  - destruct (Z.gtb_spec n (d - 1)).
    + simpl. destruct (Z.gtb_spec 0 (d - 1)); done.
    + destruct (Z.ltb_spec n 0); [lia|].
      destruct (Z.gtb_spec n (d - 1)); [lia|done].
Qed.

Lemma nd_in_range_is_valid (dims index : tuple) :
  Forall (fun '(n, d) => 0 <= n <= d - 1) (py_zip index dims) ->
  check_valid_index dims index = true.
Proof.
  intros Hin. unfold check_valid_index. rewrite py_bool_lt_zero.
  apply nd_exceeds_none_spec.
  eapply Forall_impl; [exact Hin|]. intros [n d]. lia.
Qed.

(** X25.  In any number of dimensions [check_valid_index] only looks at upper
    bounds, and only at as many coordinates as the index and the shape
    share: it answers true exactly when none of those coordinates exceeds
    the last position of its axis, so a negative coordinate never makes an
    index invalid. *)
Theorem nd_check_valid_index_tests_upper_bounds (dims index : tuple) :
  check_valid_index dims index = true <->
  Forall (fun '(n, d) => n <= d - 1) (py_zip index dims).
Proof.
  unfold check_valid_index. rewrite py_bool_lt_zero.
  apply nd_exceeds_none_spec.
Qed.

(** X26.  In any number of dimensions, when every axis has at least one
    position, [wrap_index] of any index has every coordinate within
    [0, extent - 1] of its axis, passes [check_valid_index], has as many
    coordinates as the index and the shape share, and is a fixed point of
    [wrap_index]. *)
Theorem nd_wrap_index_lands_in_bounds (dims index : tuple) :
  Forall (fun d => 1 <= d) dims ->
  Forall (fun '(n, d) => 0 <= n <= d - 1) (py_zip (wrap_index dims index) dims) /\
  check_valid_index dims (wrap_index dims index) = true /\
  length (wrap_index dims index) = Nat.min (length index) (length dims) /\
  wrap_index dims (wrap_index dims index) = wrap_index dims index.
Proof.
  intros Hext.
  assert (Forall (fun '(n, d) => 0 <= n <= d - 1)
            (py_zip (wrap_index dims index) dims)) as Hin.
  { unfold wrap_index. revert index.
    induction Hext as [|d dims Hd _ IH]; intros [|n index]; simpl;
      try constructor.
    - by apply nd_wrap_switch_range.
    - apply IH. }
  split; [exact Hin|]. split; [|split].
  - apply nd_in_range_is_valid. exact Hin.
  - unfold wrap_index. rewrite length_map. clear.
    revert dims. induction index as [|n index IH]; intros [|d dims]; simpl;
      try done. by rewrite IH.
  - unfold wrap_index. clear. revert dims.
    induction index as [|n index IH]; intros [|d dims]; simpl; try done.
    by rewrite nd_wrap_switch_idempotent, IH.
Qed.

End NdIndexProperties.

Section NdIndexWitnesses.
Import LifeND.

(** A three-dimensional shape and an index out of range on every axis. *)
Lemma nd_wrap_index_lands_in_bounds_witness :
  wrap_index [3; 4; 5] [-2; 9; 5] = [2; 0; 0] /\
  check_valid_index [3; 4; 5] (wrap_index [3; 4; 5] [-2; 9; 5]) = true /\
  wrap_index [3; 4; 5] (wrap_index [3; 4; 5] [-2; 9; 5]) =
    wrap_index [3; 4; 5] [-2; 9; 5].
Proof.
  destruct (nd_wrap_index_lands_in_bounds [3; 4; 5] [-2; 9; 5])
    as (_ & Hvalid & _ & Hfix).
  - repeat constructor; lia.
  - split; [reflexivity|]. split; [exact Hvalid|exact Hfix].
Defined.

End NdIndexWitnesses.
